(** * release-tools: the checkpointed task automaton

    A shallow embedding of [automata.py] (the [FiniteStateMachine] engine and
    its [RELEASE_REGEXP]) and of the task chain of [tasks.py], followed by
    the properties of the engine that the specification states.

    Conventions of the model:
    - a Python [str] is a Rocq [string]; its characters are the code points
      below 256, among which [\d] matches exactly ['0'..'9'];
    - the shelve file is a [gmap string value]; [shelve] pickles a value when
      it is assigned, so the store holds a snapshot, never an alias of the
      engine's in-memory list;
    - Python exceptions are values of [exn]; a computation returns
      [(exn + A) * state], the state surviving the exception as the shelve
      file does;
    - [print] is modelled for the bodies that talk to the operator only. *)

From Stdlib Require Import Ascii DecimalString.
From stdpp Require Import gmap strings list fin_maps.

Set Warnings "-register-all".

(** ** Python's [re], for the fragment [RELEASE_REGEXP] is written in *)

Module Re.

(** One-character atoms: [\d], [.] (anything but a newline) and an escaped
    literal such as [\.]. *)
Inductive cclass : Type :=
| Digit
| Dot
| Lit (c : ascii).

Inductive regex : Type :=
| Chr (c : cclass)                    (* c *)
| Star (c : cclass)                   (* c* , greedy *)
| Plus (c : cclass)                   (* c+ , greedy *)
| Opt (r : regex)                     (* r? , greedy *)
| Cat (r1 r2 : regex)                 (* r1 r2 *)
| Group (name : string) (r : regex).  (* (?P<name>r) *)

Definition is_digit (a : ascii) : bool :=
  (48 <=? nat_of_ascii a)%nat && (nat_of_ascii a <=? 57)%nat.

Definition newline : ascii := ascii_of_nat 10.

Definition accepts (c : cclass) (a : ascii) : bool :=
  match c with
  | Digit => is_digit a
  | Dot => negb (Ascii.eqb a newline)
  | Lit b => Ascii.eqb a b
  end.

Fixpoint all_chars (P : ascii → bool) (s : string) : bool :=
  match s with
  | EmptyString => true
  | String a s' => P a && all_chars P s'
  end.

(** Captures, most recent first. *)
Definition captures : Type := list (string * string).

Fixpoint capture (name : string) (env : captures) : option string :=
  match env with
  | [] => None
  | (n, v) :: env' => if String.eqb n name then Some v else capture name env'
  end.

Definition snoc (s : string) (a : ascii) : string := s +:+ String a EmptyString.

(** Greedy repetition of a one-character atom with backtracking: take the
    longest run first, and give characters back while the continuation
    [k] fails.  [acc] is the text consumed so far. *)
Fixpoint rep {A : Type} (c : cclass) (s acc : string)
    (k : string → string → option A) : option A :=
  match s with
  | String a s' =>
      if accepts c a then
        match rep c s' (snoc acc a) k with
        | Some r => Some r
        | None => k acc s
        end
      else k acc s
  | EmptyString => k acc s
  end.

(** The backtracking matcher in continuation-passing style: [k] receives
    the text this node matched, the remaining input and the captures. *)
Fixpoint run {A : Type} (r : regex) (s : string) (env : captures)
    (k : string → string → captures → option A) : option A :=
  match r with
  | Chr c =>
      match s with
      | String a s' =>
          if accepts c a then k (String a EmptyString) s' env else None
      | EmptyString => None
      end
  | Star c => rep c s EmptyString (λ t s', k t s' env)
  | Plus c =>
      match s with
      | String a s' =>
          if accepts c a
          then rep c s' (String a EmptyString) (λ t s', k t s' env)
          else None
      | EmptyString => None
      end
  | Opt r' =>
      match run r' s env k with
      | Some x => Some x
      | None => k EmptyString s env
      end
  | Cat r1 r2 =>
      run r1 s env (λ t1 s1 env1,
        run r2 s1 env1 (λ t2 s2 env2, k (t1 +:+ t2) s2 env2))
  | Group name r' =>
      run r' s env (λ t s' env', k t s' ((name, t) :: env'))
  end.

Fixpoint group_names (r : regex) : list string :=
  match r with
  | Chr _ | Star _ | Plus _ => []
  | Opt r' => group_names r'
  | Cat r1 r2 => group_names r1 ++ group_names r2
  | Group name r' => name :: group_names r'
  end.

(** A match object. *)
Record match_object : Type := MatchObject {
  m_pattern : regex;
  m_text : string;
  m_captures : captures
}.

(** [pattern.match(s)]: anchored at the start of [s], free at its end. *)
Definition match_ (r : regex) (s : string) : option match_object :=
  run r s [] (λ t _ env, Some (MatchObject r t env)).

(** [m.group(name)]: [None] for a group that took no part in the match. *)
Definition group (m : match_object) (name : string) : option string :=
  capture name (m_captures m).

(** [m.groupdict()]: every named group of the pattern is a key, the ones
    that took no part in the match mapped to [None]. *)
Definition groupdict (m : match_object) : gmap string (option string) :=
  list_to_map ((λ n, (n, group m n)) <$> group_names (m_pattern m)).

End Re.

(** [RELEASE_REGEXP]: the named groups [major], [minor] and [patch], each
    [\d+], separated by an escaped dot; then an optional escaped dot; then
    the optional named group [extra], a greedy star of [.]. *)
Definition RELEASE_REGEXP : Re.regex :=
  Re.Cat (Re.Group "major" (Re.Plus Re.Digit))
 (Re.Cat (Re.Chr (Re.Lit "."%char))
 (Re.Cat (Re.Group "minor" (Re.Plus Re.Digit))
 (Re.Cat (Re.Chr (Re.Lit "."%char))
 (Re.Cat (Re.Group "patch" (Re.Plus Re.Digit))
 (Re.Cat (Re.Opt (Re.Chr (Re.Lit "."%char)))
         (Re.Opt (Re.Group "extra" (Re.Star Re.Dot)))))))).

(** ** Python values and exceptions *)

(** What the store and the engine's attributes hold.  [TaskRef] is the type
    of task classes: a class object is what [last_checkpoint] and
    [completed_tasks] record. *)
Inductive value {TaskRef : Type} : Type :=
| VNone
| VBool (b : bool)
| VStr (s : string)
| VPath (p : string)         (* pathlib.Path(p) *)
| VTask (t : TaskRef)
| VList (l : list value).
Arguments value : clear implicits.

Inductive exn : Type :=
| TypeError
| AttributeError
| KeyError (key : string)
| ValueError (msg : string)
| ReleaseException (msg : string)
| OtherException (name : string).

(** [bool(v)], as [not self.db.get(...)] and [automata.load_checkpoint()]
    test it. *)
Definition truthy {TaskRef : Type} (v : value TaskRef) : bool :=
  match v with
  | VNone => false
  | VBool b => b
  | VStr s => match s with EmptyString => false | String _ _ => true end
  | VPath _ => true
  | VTask _ => true
  | VList l => match l with [] => false | _ :: _ => true end
  end.

Definition is_task {TaskRef : Type} (v : value TaskRef) : bool :=
  match v with VTask _ => true | _ => false end.

(** How an f-string renders what [match.group] returns. *)
Definition fmt (g : option string) : string :=
  match g with Some s => s | None => "None" end.

(** Whether a string holds the character NUL, which the value of an
    environment variable cannot hold. *)
Fixpoint has_nul (s : string) : bool :=
  match s with
  | EmptyString => false
  | String a s' => Ascii.eqb a zero || has_nul s'
  end.

(** ** The engine *)

Module FiniteStateMachine.
Section Engine.

Context {TaskRef World : Type}.

Abbreviation value := (value TaskRef).
Abbreviation store := (gmap string value).

(** [task(db).run()] and [task(db).next()] of a task class: both see and
may change the store and the outside world; [run] returns a value or
raises, [next] names the successor ([VNone] at the end of a chain). *)
Variable task_run : TaskRef → store → World → (exn + value) * store * World.
Variable task_next : TaskRef → store → World → (exn + value) * store * World.

Record state : Type := State {
db : store;                       (* the shelve file ~/.python_release *)
environ : gmap string string;     (* os.environ *)
current_task : value;             (* self.current_task *)
completed_tasks : value;          (* self.completed_tasks *)
world : World;                    (* what the task bodies act on *)
history : list store              (* ghost: the store after each write *)
}.

(** A process that has not built its engine yet, on the store [d]. *)
Definition boot (d : store) (w : World) : state :=
State d ∅ VNone VNone w [].

Definition M (A : Type) : Type := state → (exn + A) * state.

Definition ret {A} (x : A) : M A := λ st, (inr x, st).
Definition raise {A} (e : exn) : M A := λ st, (inl e, st).
Definition bind {A B} (c : M A) (k : A → M B) : M B :=
λ st, match c st with
    | (inr x, st') => k x st'
    | (inl e, st') => (inl e, st')
    end.
Definition catch {A} (c : M A) (h : exn → M A) : M A :=
λ st, match c st with
    | (inr x, st') => (inr x, st')
    | (inl e, st') => h e st'
    end.

#[export] Instance M_ret : MRet M := @ret.
#[export] Instance M_bind : MBind M := λ A B k c, bind c k.

(** The store: every write is durable at once and leaves a point in
[history]. *)
Definition write (d : store) (st : state) : state :=
State d (environ st) (current_task st) (completed_tasks st) (world st)
    (history st ++ [d]).

Definition db_get (k : string) (default : value) : M value :=
λ st, (inr (match db st !! k with Some v => v | None => default end), st).
Definition db_getitem (k : string) : M value :=
λ st, match db st !! k with
    | Some v => (inr v, st)
    | None => (inl (KeyError k), st)
    end.
Definition db_setitem (k : string) (v : value) : M unit :=
λ st, (inr (), write (<[k:=v]> (db st)) st).
(** [self.db.close(); self.db = shelve.open(..., "n")]: a new, empty
store. *)
Definition db_reopen_new : M unit :=
λ st, (inr (), write ∅ st).

Definition get_current_task : M value := λ st, (inr (current_task st), st).
Definition set_current_task (v : value) : M unit :=
λ st, (inr (), State (db st) (environ st) v (completed_tasks st)
                   (world st) (history st)).
Definition get_completed_tasks : M value :=
λ st, (inr (completed_tasks st), st).
Definition set_completed_tasks (v : value) : M unit :=
λ st, (inr (), State (db st) (environ st) (current_task st) v
                   (world st) (history st)).

(** [os.environ[k] = v], for a name [k] that an environment variable can
have: [v] must be a string ([TypeError]) without NUL ([ValueError]). *)
Definition environ_setitem (k : string) (v : value) : M unit :=
λ st, match v with
    | VStr s =>
        if has_nul s then (inl (ValueError "embedded null byte"), st)
        else (inr (), State (db st) (<[k:=s]> (environ st))
                            (current_task st) (completed_tasks st)
                            (world st) (history st))
    | _ => (inl TypeError, st)
    end.

(** [pathlib.Path(p)] *)
Definition Path (p : option string) : M value :=
match p with
| Some s => ret (VPath s)
| None => raise TypeError
end.

(** [RELEASE_REGEXP.match(release)] *)
Definition release_match (release : option string) : M (option Re.match_object) :=
match release with
| Some s => ret (Re.match_ RELEASE_REGEXP s)
| None => raise TypeError
end.

(** [match.group(name)] on what [release_match] returned: [None] has no
attribute [group]. *)
Definition match_group (m : option Re.match_object) (name : string)
: M (option string) :=
match m with
| Some mo => ret (Re.group mo name)
| None => raise AttributeError
end.

(** Lines 32-48 of [__init__]: the keys derived from the version. *)
Definition seed_release (release : option string) : M unit :=
m ← release_match release;
major ← match_group m "major";
minor ← match_group m "minor";
patch ← match_group m "patch";
match m with
| None => raise (ValueError "Invalid release string")
| Some mo =>
  r ← db_get "release" VNone;
  (if negb (truthy r)
   then db_setitem "release"
          (match release with Some s => VStr s | None => VNone end)
   else ret ()) ;;
  n ← db_get "normalized_release" VNone;
  (if negb (truthy n)
   then db_setitem "normalized_release"
          (VStr (fmt major +:+ "." +:+ fmt minor +:+ "." +:+ fmt patch))
   else ret ()) ;;
  b ← db_get "release_branch" VNone;
  (if negb (truthy b)
   then
     let branch :=
       if bool_decide (Re.groupdict mo !! "extra" = None)
       then fmt major +:+ "." +:+ fmt minor +:+ "." +:+ fmt patch
       else "master" in
     db_setitem "release_branch" (VStr branch)
   else ret ())
end.

(** Lines 18-23 of [__init__]: open the store, and start from an empty
one after a finished run. *)
Definition open_store : M unit :=
f ← db_get "finished" VNone;
if negb (truthy f)
then db_setitem "finished" (VBool false)
else db_reopen_new.

(** Lines 25-26. *)
Definition init_attributes (first_state : value) : M unit :=
set_current_task first_state;;
c ← db_get "completed_tasks" (VList []);
set_completed_tasks c.

(** Lines 27-28. *)
Definition export_gpg_key : M unit :=
g ← db_get "gpg_key" VNone;
if truthy g
then k ← db_getitem "gpg_key"; environ_setitem "GPG_KEY_FOR_RELEASE" k
else ret ().

(** Lines 29-30. *)
Definition seed_git_repo (git_repo : option string) : M unit :=
p ← db_get "git_repo" VNone;
if negb (truthy p)
then path ← Path git_repo; db_setitem "git_repo" path
else ret ().

Definition __init__ (release git_repo : option string) (first_state : value)
: M unit :=
open_store;;
init_attributes first_state;;
export_gpg_key;;
seed_git_repo git_repo;;
seed_release release.

Definition checkpoint : M unit :=
c ← get_completed_tasks;
db_setitem "completed_tasks" c ;;
t ← get_current_task;
db_setitem "last_checkpoint" t.

Definition load_checkpoint : M value :=
v ← db_get "last_checkpoint" VNone;
set_current_task v ;;
get_current_task.

(** [for task in self.completed_tasks: print(task.description)]: only
what can go wrong is kept. *)
Definition show_completed : M unit :=
c ← get_completed_tasks;
match c with
| VList l => if forallb is_task l then ret () else raise AttributeError
| VStr EmptyString => ret ()
| VStr _ => raise AttributeError
| _ => raise TypeError
end.

(** [self.current_task(self.db).run()] *)
Definition call_run (t : TaskRef) : M value :=
λ st, let '(r, d, w) := task_run t (db st) (world st) in
    (r, State d (environ st) (current_task st) (completed_tasks st) w
              (history st ++ [d])).

Definition call_next (t : TaskRef) : M value :=
λ st, let '(r, d, w) := task_next t (db st) (world st) in
    (r, State d (environ st) (current_task st) (completed_tasks st) w
              (history st ++ [d])).

(** [self.completed_tasks.append(v)] *)
Definition append_completed (v : value) : M unit :=
c ← get_completed_tasks;
match c with
| VList l => set_completed_tasks (VList (l ++ [v]))
| _ => raise AttributeError
end.

(** The body of the [while] loop of [run]. *)
Definition step : M unit :=
checkpoint ;;
cur ← get_current_task;
match cur with
| VTask t =>
  catch (call_run t) (λ e, raise e) ;;
  append_completed cur ;;
  nxt ← call_next t;
  set_current_task nxt
| _ => raise TypeError
end.

(** [while self.current_task is not None: ...], [None] when the fuel runs
out before the loop ends. *)
Fixpoint while_loop (fuel : nat) (st : state) : option ((exn + unit) * state) :=
match fuel with
| O => None
| S fuel' =>
  match current_task st with
  | VNone => Some (inr (), st)
  | _ =>
      match step st with
      | (inr _, st') => while_loop fuel' st'
      | (inl e, st') => Some (inl e, st')
      end
  end
end.

(** The loop head reached from [st] by running the tasks [ts], each to
success. *)
Inductive executes : state → list TaskRef → state → Prop :=
| executes_nil st : executes st [] st
| executes_cons st t st' ts st'' :
current_task st = VTask t →
step st = (inr (), st') →
executes st' ts st'' →
executes st (t :: ts) st''.

Definition run (fuel : nat) (st : state) : option ((exn + unit) * state) :=
match show_completed st with
| (inl e, st') => Some (inl e, st')
| (inr _, st') =>
  match while_loop fuel st' with
  | Some (inr _, st'') => Some (db_setitem "finished" (VBool true) st'')
  | r => r
  end
end.

End Engine.
End FiniteStateMachine.

(** ** The task chain of [tasks.py] *)

Module Tasks.

Import FiniteStateMachine.

(** The task classes. *)
Inductive TaskRef : Type :=
| check_buildbots
| check_ssh_connection
| check_gpg_keys
| check_git
| check_blurb
| check_make
| check_autoconf
| check_cpython_repo_is_clean
| run_blurb_release
| check_docs
| prepare_pydoc_topics
| run_autoconf
| check_pyspecific
| bump_version
| create_tag
| build_release_artifacts
| test_release_artifacts
| upload_files_to_server
| place_files_in_download_folder
| send_email_to_platform_release_managers
| create_release_object_in_db
| wait_util_all_files_are_in_folder.

Abbreviation value := (value TaskRef).
Abbreviation store := (gmap string value).

(** [next()] of each class; a body that is [...] returns [None]. *)
Definition next (t : TaskRef) : value :=
  match t with
  | check_buildbots => VTask run_blurb_release
  | check_ssh_connection => VTask check_buildbots
  | check_gpg_keys => VTask check_ssh_connection
  | check_git => VTask check_make
  | check_blurb => VTask check_autoconf
  | check_make => VTask check_blurb
  | check_autoconf => VTask check_gpg_keys
  | check_cpython_repo_is_clean => VNone
  | run_blurb_release => VTask check_docs
  | check_docs => VTask prepare_pydoc_topics
  | prepare_pydoc_topics => VTask run_autoconf
  | run_autoconf => VTask check_pyspecific
  | check_pyspecific => VTask bump_version
  | bump_version => VTask create_tag
  | create_tag => VTask build_release_artifacts
  | build_release_artifacts => VTask test_release_artifacts
  | test_release_artifacts => VTask upload_files_to_server
  | upload_files_to_server => VTask place_files_in_download_folder
  | place_files_in_download_folder =>
      VTask send_email_to_platform_release_managers
  | send_email_to_platform_release_managers =>
      VTask create_release_object_in_db
  | create_release_object_in_db => VTask wait_util_all_files_are_in_folder
  | wait_util_all_files_are_in_folder => VNone
  end.

Section Bodies.

Context {World : Type}.

(** [shutil.which(cmd)]: the path of the executable, or [None]. *)
Variable shutil_which : string → World → option string.
(** The bodies that drive processes, the network and the operator. *)
Variable external : TaskRef → store → World → (exn + value) * store * World.

Definition which (cmd : string) (w : World) : value :=
  match shutil_which cmd w with
  | Some path => VStr path
  | None => VNone
  end.

Definition task_run (t : TaskRef) (d : store) (w : World)
    : (exn + value) * store * World :=
  match t with
  | check_git => (inr (which "git" w), d, w)
  | check_blurb => (inr (which "blurb" w), d, w)
  | check_make => (inr (which "make" w), d, w)
  | check_autoconf => (inr (which "autoconf" w), d, w)
  | _ => external t d w
  end.

Definition task_next (t : TaskRef) (d : store) (w : World)
    : (exn + value) * store * World :=
  (inr (next t), d, w).

(** The tasks that look a tool up. *)
Definition tool_checks : list TaskRef :=
  [check_git; check_make; check_blurb; check_autoconf].

(** The script at the end of [tasks.py]. *)
Definition main : @M TaskRef World unit :=
  __init__ (Some "3.10.1a2") (Some "/home/pablogsal/github/python/master")
           VNone;;
  c ← load_checkpoint;
  if negb (truthy c)
  then set_current_task (VTask check_git)
  else ret ().

End Bodies.

End Tasks.

(** ** A chain of three tasks, the second one failing while the outside
    world says so *)

Module Scenario.

Import FiniteStateMachine.

Inductive TaskRef : Type := T1 | T2 | T3.

Abbreviation value := (value TaskRef).
Abbreviation store := (gmap string value).

(** The world: whether [T2] fails. *)
Definition task_run (t : TaskRef) (d : store) (w : bool)
    : (exn + value) * store * bool :=
  match t with
  | T2 => if w then (inl (ReleaseException "T2"), d, w) else (inr VNone, d, w)
  | _ => (inr VNone, d, w)
  end.

Definition task_next (t : TaskRef) (d : store) (w : bool)
    : (exn + value) * store * bool :=
  match t with
  | T1 => (inr (VTask T2), d, w)
  | T2 => (inr (VTask T3), d, w)
  | T3 => (inr VNone, d, w)
  end.

(** The engine right after [__init__], seen through its result. *)
Definition fresh (first_state : value) (w : bool) : state :=
  snd (__init__ (Some "3.10.1") (Some "/repo") first_state (boot ∅ w)).

(** One turn of the loop, seen through the state it leaves. *)
Definition turn (st : state) : state :=
  snd (step task_run task_next st).

(** Scenario C of the specification as a program: the run in which [T2]
    fails, then a new engine on the store that run left, pointed at the
    checkpoint, in a world where [T2] succeeds. *)
Definition resume : option ((exn + unit) * state) :=
  match run task_run task_next 4 (fresh (VTask T1) true) with
  | Some (inl _, st1) =>
      let st2 := snd (__init__ (Some "3.10.1") (Some "/repo") VNone
                               (boot (db st1) false)) in
      let st3 := snd (load_checkpoint st2) in
      run task_run task_next 4 st3
  | _ => None
  end.

End Scenario.


Import FiniteStateMachine.

(** ** Vocabulary of the specification *)

(** A numeric token: one decimal digit or more. *)
Definition numeric (s : string) : bool :=
  match s with
  | EmptyString => false
  | String _ _ => Re.all_chars Re.is_digit s
  end.

Definition starts_with_digit (s : string) : bool :=
  match s with
  | EmptyString => false
  | String a _ => Re.is_digit a
  end.

(** [<major>.<minor>.<patch>] followed by a suffix. *)
Definition version_string (major minor patch suffix : string) : string :=
  major +:+ "." +:+ minor +:+ "." +:+ patch +:+ suffix.

Definition well_formed (s : string) : Prop :=
  ∃ major minor patch suffix,
    numeric major = true ∧ numeric minor = true ∧ numeric patch = true ∧
    s = version_string major minor patch suffix.

(** Missing a numeric major, minor or patch component. *)
Definition malformed (s : string) : Prop := ¬ well_formed s.

(** [bool(db.get(k))] *)
Definition lookup_truthy {TaskRef : Type} (d : gmap string (value TaskRef))
    (k : string) : bool :=
  match d !! k with
  | Some v => truthy v
  | None => false
  end.

(** The checkpoint of the store names a task that the store does not
    record as completed. *)
Definition pending {TaskRef : Type} (d : gmap string (value TaskRef)) : Prop :=
  ∃ t l, d !! "last_checkpoint" = Some (VTask t) ∧
         d !! "completed_tasks" = Some (VList l) ∧
         VTask t ∉ l.

(** The keys the engine itself keeps in the store, and the keys [__init__]
    seeds. *)
Definition engine_keys : list string :=
  ["finished"; "completed_tasks"; "last_checkpoint"].
Definition seeded_keys : list string :=
  ["git_repo"; "release"; "normalized_release"; "release_branch"].

(** Whether [c] takes the first character of [s]. *)
Definition takes_head (c : Re.cclass) (s : string) : bool :=
  match s with
  | EmptyString => false
  | String a _ => Re.accepts c a
  end.

(** ** The constructor as a function of the store it finds

    What [__init__] leaves in the store and whether it raises, written as
    functions of the store alone; [init_spec] below proves that [__init__]
    computes them. *)

(** [if not d.get(k): d[k] = v] *)
Definition seed_if_unset {TaskRef : Type} (k : string) (v : value TaskRef)
    (d : gmap string (value TaskRef)) : gmap string (value TaskRef) :=
  if lookup_truthy d k then d else <[k:=v]> d.

(** Lines 18-23 on the store. *)
Definition open_db {TaskRef : Type} (d : gmap string (value TaskRef))
    : gmap string (value TaskRef) :=
  if lookup_truthy d "finished" then ∅ else <["finished":=VBool false]> d.

(** The f-string [{major}.{minor}.{patch}]. *)
Definition normalized (mo : Re.match_object) : string :=
  fmt (Re.group mo "major") +:+ "." +:+ fmt (Re.group mo "minor") +:+ "."
  +:+ fmt (Re.group mo "patch").

(** Lines 27-28 do not raise: [gpg_key] is absent, falsy or a string
    without NUL. *)
Definition gpg_exportable {TaskRef : Type} (d : gmap string (value TaskRef)) : bool :=
  match d !! "gpg_key" with
  | Some (VStr s) => negb (has_nul s)
  | Some v => negb (truthy v)
  | None => true
  end.

(** What lines 27-28 raise when they do. *)
Definition gpg_export_error {TaskRef : Type} (d : gmap string (value TaskRef))
    : exn :=
  match d !! "gpg_key" with
  | Some (VStr _) => ValueError "embedded null byte"
  | _ => TypeError
  end.

(** Lines 32-48: the result, and the store. *)
Definition release_result (release : option string) : exn + unit :=
  match release with
  | None => inl TypeError
  | Some s =>
      match Re.match_ RELEASE_REGEXP s with
      | None => inl AttributeError
      | Some _ => inr ()
      end
  end.

Definition release_db {TaskRef : Type} (release : option string)
    (d : gmap string (value TaskRef)) : gmap string (value TaskRef) :=
  match release with
  | None => d
  | Some s =>
      match Re.match_ RELEASE_REGEXP s with
      | None => d
      | Some mo =>
          seed_if_unset "release_branch"
            (VStr (if bool_decide (Re.groupdict mo !! "extra" = None)
                   then normalized mo else "master"))
            (seed_if_unset "normalized_release" (VStr (normalized mo))
               (seed_if_unset "release" (VStr s) d))
      end
  end.

(** Lines 25-48, on the store as [open_store] leaves it. *)
Definition configure_result {TaskRef : Type} (release git_repo : option string)
    (d0 : gmap string (value TaskRef)) : exn + unit :=
  if gpg_exportable d0 then
    match git_repo with
    | Some _ => release_result release
    | None =>
        if lookup_truthy d0 "git_repo" then release_result release
        else inl TypeError
    end
  else inl (gpg_export_error d0).

Definition configure_db {TaskRef : Type} (release git_repo : option string)
    (d0 : gmap string (value TaskRef)) : gmap string (value TaskRef) :=
  if gpg_exportable d0 then
    match git_repo with
    | Some p => release_db release (seed_if_unset "git_repo" (VPath p) d0)
    | None =>
        if lookup_truthy d0 "git_repo" then release_db release d0 else d0
    end
  else d0.

Definition init_result {TaskRef : Type} (release git_repo : option string)
    (d : gmap string (value TaskRef)) : exn + unit :=
  configure_result release git_repo (open_db d).

Definition init_db {TaskRef : Type} (release git_repo : option string)
    (d : gmap string (value TaskRef)) : gmap string (value TaskRef) :=
  configure_db release git_repo (open_db d).

Section StatePieces.

Context {TaskRef World : Type}.
Implicit Types (st : @state TaskRef World).

(** [if not self.db.get(k): self.db[k] = v] on a state. *)
Definition seed_state (k : string) (v : value TaskRef) st
    : @state TaskRef World :=
  if lookup_truthy (db st) k then st else write (<[k:=v]> (db st)) st.

(** The store as [checkpoint] leaves it. *)
Definition checkpointed st : gmap string (value TaskRef) :=
  <["last_checkpoint":=current_task st]>
    (<["completed_tasks":=completed_tasks st]> (db st)).

(** The store between the two writes of [checkpoint]. *)
Definition half_checkpointed st : gmap string (value TaskRef) :=
  <["completed_tasks":=completed_tasks st]> (db st).

End StatePieces.

(** ** The bodies of [tasks.py] that talk to the operator *)

Module Terminal.

(** What these bodies act on: the lines the operator will type, what has
    been written to the terminal, and the rest of the outside world. *)
Record world {Outside : Type} : Type := World {
  stdin : list string;
  stdout : list string;
  outside : Outside
}.
Arguments world : clear implicits.
Arguments World {Outside}.

(** What [print(s)] writes. *)
Definition line (s : string) : string := s +:+ String Re.newline "".

Section Console.

Context {TaskRef Outside : Type}.

Abbreviation value := (value TaskRef).
Abbreviation store := (gmap string value).

(** [print(s)] *)
Definition print (s : string) (w : world Outside) : world Outside :=
  World (stdin w) (stdout w ++ [line s]) (outside w).

(** [input(prompt)]: the prompt, then a line of the input without its
    newline; [EOFError] when there is none. *)
Definition input (prompt : string) (w : world Outside)
    : (exn + string) * world Outside :=
  match stdin w with
  | [] => (inl (OtherException "EOFError"),
           World [] (stdout w ++ [prompt]) (outside w))
  | answer :: inp =>
      (inr answer, World inp (stdout w ++ [prompt]) (outside w))
  end.

(** [answer in ("yes", "no")] *)
Definition yes_or_no (answer : string) : bool :=
  String.eqb answer "yes" || String.eqb answer "no".

(** The [while] loop of [ask_question], from its head, by recursion on
    the lines that are left to read ([input] is written out); falling out
    of the loop returns [None]. *)
Fixpoint ask_loop (answer : string) (inp out : list string) (o : Outside)
    {struct inp} : (exn + value) * world Outside :=
  if yes_or_no answer then (inr VNone, World inp out o)
  else
    let out := out ++ ["Enter yes or no: "] in
    match inp with
    | [] => (inl (OtherException "EOFError"), World [] out o)
    | answer :: inp =>
        if String.eqb answer "yes" then (inr (VBool true), World inp out o)
        else if String.eqb answer "no" then (inr (VBool false), World inp out o)
        else ask_loop answer inp (out ++ [line "Please enter yes or no."]) o
    end.

Definition ask_question (question : string) (w : world Outside)
    : (exn + value) * world Outside :=
  let w := print question w in
  ask_loop "" (stdin w) (stdout w) (outside w).

(** [if not ask_question(question): raise ReleaseException(msg)], the last
    statement of a [run] body. *)
Definition confirm (question msg : string) (w : world Outside)
    : (exn + value) * world Outside :=
  match ask_question question w with
  | (inr a, w') =>
      if negb (truthy a) then (inl (ReleaseException msg), w')
      else (inr VNone, w')
  | (inl e, w') => (inl e, w')
  end.

(** [send_email_to_platform_release_managers.run] *)
Definition send_email_to_platform_release_managers_run (d : store)
    (w : world Outside) : (exn + value) * store * world Outside :=
  let '(r, w') :=
    confirm ("Have you notified the platform release managers about the "
             +:+ "availability of artifacts?")
            "Platform release managers muy be notified" w in
  (r, d, w').

(** How an f-string shows what is not a [str]. *)
Variable format_ : value → string.

Definition format (v : value) : string :=
  match v with
  | VStr s => s
  | _ => format_ v
  end.

(** [create_release_object_in_db.run] *)
Definition create_release_object_in_db_run (d : store) (w : world Outside)
    : (exn + value) * store * world Outside :=
  let w := print ("Go to https://www.python.org/admin/downloads/release/add/"
                  +:+ " and create a new release") w in
  match d !! "release" with
  | None => (inl (KeyError "release"), d, w)
  | Some release =>
      let '(r, w') :=
        confirm ("Have you already created a new release for "
                 +:+ format release)
                "The django release object has not been created" w in
      (r, d, w')
  end.

(** ** [check_gpg_keys] *)

(** A key as [gnupg] lists it: its id, and its user ids as the f-string
    shows them. *)
Record gpg_key : Type := GpgKey { keyid : string; uids : string }.

(** [l[i]]: a negative index counts from the end; [None] stands for
    [IndexError]. *)
Definition getitem {A : Type} (l : list A) (i : Z) : option A :=
  if (0 <=? i)%Z then l !! Z.to_nat i
  else if (- Z.of_nat (length l) <=? i)%Z
       then l !! Z.to_nat (Z.of_nat (length l) + i)
       else None.

(** [int(s)]: the integer, or the message of the [ValueError] it
    raises. *)
Variable int_ : string → string + Z.

(** The listing [for index, key in enumerate(keys): print(...)], from
    [index]. *)
Fixpoint print_keys (index : nat) (keys : list gpg_key) (w : world Outside)
    : world Outside :=
  match keys with
  | [] => w
  | key :: keys' =>
      print_keys (S index) keys'
        (print (NilZero.string_of_uint (Nat.to_uint index) +:+ " - "
                +:+ keyid key +:+ ": " +:+ uids key) w)
  end.

(** [check_gpg_keys.run], on the keys that [pg.list_keys(secret=True)]
    returned and on [os.environ], which refuses a value that holds NUL. *)
Definition check_gpg_keys_run (keys : list gpg_key) (d : store)
    (env : gmap string string) (w : world Outside)
    : (exn + value) * store * gmap string string * world Outside :=
  match keys with
  | [] => (inl (ReleaseException "There are no valid GPG keys for release"),
           d, env, w)
  | _ :: _ =>
      let w := print_keys 0 keys w in
      match input "Select one GPG key for release (by index):" w with
      | (inl e, w) => (inl e, d, env, w)
      | (inr answer, w) =>
          match int_ answer with
          | inl msg => (inl (ValueError msg), d, env, w)
          | inr selected_key_index =>
              match getitem keys selected_key_index with
              | None => (inl (OtherException "IndexError"), d, env, w)
              | Some key =>
                  let selected_key := keyid key in
                  if has_nul selected_key
                  then (inl (ValueError "embedded null byte"), d, env, w)
                  else
                    let env :=
                      <["GPG_KEY_FOR_self.db['release']":=selected_key]> env in
                    if bool_decide (selected_key ∈ (keyid <$> keys))
                    then (inr VNone, <["gpg_key":=VStr selected_key]> d, env, w)
                    else (inl (ReleaseException "Invalid GPG key selected"),
                          d, env, w)
              end
          end
      end
  end.

End Console.

(** ** The loop of [wait_util_all_files_are_in_folder] *)

(** [s.endswith(suffix)] *)
Fixpoint ends_with (suffix s : string) : bool :=
  String.eqb s suffix ||
  match s with
  | EmptyString => false
  | String _ s' => ends_with suffix s'
  end.

(** What the loop acts on: what [ftp_client.listdir] will return or raise,
    one for each call, and the number of calls of [time.sleep(1)], each of
    which follows a progress line. *)
Record polling : Type := Polling {
  listings : list (exn + list string);
  sleeps : nat
}.

(** The [while] loop, by recursion on the listings to come; [None] when
    they are used up before the loop ends.  [FileNotFoundError] is raised
    anew with a message, any other error leaves the loop as it is. *)
Fixpoint wait_loop {TaskRef : Type} (ls : list (exn + list string))
    (sleeps : nat) : option ((exn + value TaskRef) * polling) :=
  match ls with
  | [] => None
  | inl e :: ls' => Some (inl e, Polling ls' sleeps)
  | inr all_files :: ls' =>
      let are_windows_files_there := existsb (ends_with ".exe") all_files in
      let are_macos_files_there := existsb (ends_with ".pkg") all_files in
      let are_linux_files_there := existsb (ends_with ".tgz") all_files in
      let are_all_files_there :=
        are_linux_files_there && are_windows_files_there
        && are_macos_files_there in
      let sleeps := if negb are_macos_files_there then S sleeps else sleeps in
      if are_all_files_there
      then Some (inr VNone, Polling ls' sleeps)
      else wait_loop ls' sleeps
  end.

(** [are_all_files_there] for a listing. *)
Definition all_files_there (all_files : list string) : bool :=
  existsb (ends_with ".tgz") all_files
  && existsb (ends_with ".exe") all_files
  && existsb (ends_with ".pkg") all_files.

(** ** The operator's tasks in the engine *)

Section Engine.

Context {Outside : Type}.
Variable format_ : Tasks.value → string.
(** The bodies that are not embedded. *)
Variable other : Tasks.TaskRef → Tasks.store → world Outside
                 → (exn + Tasks.value) * Tasks.store * world Outside.

Definition external (t : Tasks.TaskRef) (d : Tasks.store) (w : world Outside)
    : (exn + Tasks.value) * Tasks.store * world Outside :=
  match t with
  | Tasks.send_email_to_platform_release_managers =>
      send_email_to_platform_release_managers_run d w
  | Tasks.create_release_object_in_db =>
      create_release_object_in_db_run format_ d w
  | _ => other t d w
  end.

End Engine.

End Terminal.

(** ** [check_pyspecific] *)

(** [sub in s] *)
Fixpoint contains (sub s : string) : bool :=
  String.prefix sub s ||
  match s with
  | EmptyString => false
  | String _ s' => contains sub s'
  end.

(** The white space that [str.strip()] removes, among the code points
    below 256. *)
Definition is_space (a : ascii) : bool :=
  let n := nat_of_ascii a in
  ((9 <=? n) && (n <=? 13) || (28 <=? n) && (n <=? 32)
   || (n =? 133) || (n =? 160))%nat.

Fixpoint lstrip (s : string) : string :=
  match s with
  | EmptyString => EmptyString
  | String a s' => if is_space a then lstrip s' else s
  end.

Fixpoint rstrip (s : string) : string :=
  match s with
  | EmptyString => EmptyString
  | String a s' =>
      match rstrip s' with
      | EmptyString => if is_space a then EmptyString else String a EmptyString
      | r => String a r
      end
  end.

(** [s.strip()] *)
Definition strip (s : string) : string := rstrip (lstrip s).

(** The variable [line] after
    [for line in pyspecific: if "SOURCE_URI =" in line: break], from its
    value before ([None] while it is not bound). *)
Fixpoint line_read (pyspecific : list string) (line : option string)
    : option string :=
  match pyspecific with
  | [] => line
  | l :: pyspecific' =>
      if contains "SOURCE_URI =" l then Some l
      else line_read pyspecific' (Some l)
  end.

Section CheckPyspecific.

Context {TaskRef : Type}.
(** How an f-string shows what is not a [str]. *)
Variable format_ : value TaskRef → string.

(** [check_pyspecific.run], on what [open] returns for
    [Doc/tools/extensions/pyspecific.py]: the lines of the file, or the
    error it raises. *)
Definition check_pyspecific_run (pyspecific : exn + list string)
    (d : gmap string (value TaskRef))
    : (exn + value TaskRef) * gmap string (value TaskRef) :=
  match d !! "git_repo" with
  | None => (inl (KeyError "git_repo"), d)
  | Some (VPath _) =>
      match pyspecific with
      | inl e => (inl e, d)
      | inr lines =>
          let line := line_read lines None in
          match d !! "release_branch" with
          | None => (inl (KeyError "release_branch"), d)
          | Some release_branch =>
              let expected :=
                "SOURCE_URI = 'https://github.com/python/cpython/tree/"
                +:+ Terminal.format format_ release_branch +:+ "/%s'" in
              match line with
              | None => (inl (OtherException "UnboundLocalError"), d)
              | Some line =>
                  if negb (String.eqb expected (strip line))
                  then (inl (ReleaseException "SOURCE_URI is incorrect"), d)
                  else (inr VNone, d)
              end
          end
      end
  | Some _ => (inl TypeError, d)
  end.

End CheckPyspecific.

(** ** The chain of [next()] *)

(** The tasks that the loop of [run] goes through from the pointer [v],
    as far as [fuel] allows, and the pointer it then has. *)
Fixpoint chain (fuel : nat) (v : Tasks.value) : list Tasks.TaskRef :=
  match fuel, v with
  | S fuel', VTask t => t :: chain fuel' (Tasks.next t)
  | _, _ => []
  end.

Fixpoint chain_end (fuel : nat) (v : Tasks.value) : Tasks.value :=
  match fuel, v with
  | S fuel', VTask t => chain_end fuel' (Tasks.next t)
  | _, _ => v
  end.

(** None of the bodies that [tasks.py] leaves to the outside world
    fails. *)
Definition all_succeed {World : Type}
    (external : Tasks.TaskRef → Tasks.store → World
                → (exn + Tasks.value) * Tasks.store * World) : Prop :=
  ∀ t d w, ∃ v d' w', external t d w = (inr v, d', w').

#[global] Instance TaskRef_eq_dec : EqDecision Tasks.TaskRef.
Proof. solve_decision. Defined.

(** * Properties *)

(** ** Strings *)

Lemma append_cons a s t : String a s +:+ t = String a (s +:+ t).
Proof. reflexivity. Qed.

Lemma append_empty_l s : "" +:+ s = s.
Proof. reflexivity. Qed.

Lemma append_empty_r s : s +:+ "" = s.
Proof. induction s as [|a s IH]; [done|]. by rewrite append_cons, IH. Qed.

Lemma append_assoc s t u : (s +:+ t) +:+ u = s +:+ t +:+ u.
Proof. induction s as [|a s IH]; [done|]. by rewrite !append_cons, IH. Qed.

Lemma snoc_append acc a s : Re.snoc acc a +:+ s = acc +:+ String a s.
Proof. unfold Re.snoc. by rewrite append_assoc. Qed.

Lemma all_chars_append P s t :
  Re.all_chars P (s +:+ t) = Re.all_chars P s && Re.all_chars P t.
Proof.
  induction s as [|a s IH]; [done|].
  rewrite append_cons. simpl. by rewrite IH, andb_assoc.
Qed.


Lemma numeric_inv s :
  numeric s = true →
  ∃ a s', s = String a s' ∧ Re.is_digit a = true ∧
          Re.all_chars Re.is_digit s' = true.
Proof.
  destruct s as [|a s']; [done|]. simpl.
  intros H. apply andb_prop in H as [??]. eauto.
Qed.

Lemma numeric_snoc s a :
  numeric s = true → Re.is_digit a = true → numeric (s +:+ String a "") = true.
Proof.
  destruct s as [|b s]; [done|]. simpl. intros [Hb Hs]%andb_prop Ha.
  change (numeric (String b (s +:+ String a "")) = true). simpl.
  rewrite all_chars_append, Hb, Hs. simpl. by rewrite Ha.
Qed.

(** ** The matcher *)

Section Matcher.

Context {A : Type}.
Implicit Types (c : Re.cclass) (k : string → string → option A).

(** A run of [c] that cannot be extended is taken whole, as long as the
    continuation accepts what follows. *)
Lemma rep_greedy c ds rest acc k :
  Re.all_chars (Re.accepts c) ds = true →
  takes_head c rest = false →
  is_Some (k (acc +:+ ds) rest) →
  Re.rep c (ds +:+ rest) acc k = k (acc +:+ ds) rest.
Proof.
  revert acc. induction ds as [|a ds IH]; intros acc Hall Hhead Hk.
  - rewrite append_empty_r in *. simpl.
    destruct rest as [|b rest]; [done|].
    simpl in Hhead |- *. by rewrite Hhead.
  - simpl in Hall. apply andb_prop in Hall as [Ha Hall].
    rewrite append_cons. simpl. rewrite Ha.
    rewrite <- snoc_append in Hk |- *.
    rewrite (IH _ Hall Hhead Hk).
    by destruct Hk as [r ->].
Qed.

(** Whatever [rep] returns, the continuation returned it after a run of
    [c]. *)
Lemma rep_inv c s acc k r :
  Re.rep c s acc k = Some r →
  ∃ ds rest, s = ds +:+ rest ∧ Re.all_chars (Re.accepts c) ds = true ∧
             k (acc +:+ ds) rest = Some r.
Proof.
  revert acc. induction s as [|a s IH]; intros acc H; simpl in H.
  - exists "", "". by rewrite !append_empty_r.
  - destruct (Re.accepts c a) eqn:Ha.
    + destruct (Re.rep c s (Re.snoc acc a) k) as [r'|] eqn:Hrep.
      * injection H as ->.
        apply IH in Hrep as (ds & rest & -> & Hall & Hk).
        exists (String a ds), rest. simpl. rewrite Ha, Hall.
        rewrite snoc_append in Hk. naive_solver.
      * exists "", (String a s). by rewrite !append_empty_r.
    + exists "", (String a s). by rewrite !append_empty_r.
Qed.

(** Under a continuation that never fails, neither does [rep]. *)
Lemma rep_total c s acc k :
  (∀ t s', is_Some (k t s')) →
  ∃ ds rest, Re.rep c s acc k = k (acc +:+ ds) rest.
Proof.
  intros Hk. revert acc. induction s as [|a s IH]; intros acc; simpl.
  - exists "", "". by rewrite !append_empty_r.
  - destruct (Re.accepts c a).
    + destruct (IH (Re.snoc acc a)) as (ds & rest & ->).
      destruct (Hk (Re.snoc acc a +:+ ds) rest) as [r Hr]. rewrite Hr.
      exists (String a ds), rest. by rewrite <- snoc_append.
    + exists "", (String a s). by rewrite !append_empty_r.
Qed.

Implicit Types (K : string → string → Re.captures → option A).

Lemma run_plus_greedy c a ds rest env K :
  Re.accepts c a = true →
  Re.all_chars (Re.accepts c) ds = true →
  takes_head c rest = false →
  is_Some (K (String a ds) rest env) →
  Re.run (Re.Plus c) (String a ds +:+ rest) env K = K (String a ds) rest env.
Proof.
  intros Ha Hall Hhead HK. rewrite append_cons. simpl. rewrite Ha.
  by rewrite rep_greedy.
Qed.

Lemma run_plus_inv c s env K r :
  Re.run (Re.Plus c) s env K = Some r →
  ∃ a ds rest, s = String a ds +:+ rest ∧ Re.accepts c a = true ∧
               Re.all_chars (Re.accepts c) ds = true ∧
               K (String a ds) rest env = Some r.
Proof.
  destruct s as [|a s]; [done|]. simpl.
  destruct (Re.accepts c a) eqn:Ha; [|done].
  intros (ds & rest & -> & Hall & HK)%rep_inv. by exists a, ds, rest.
Qed.

Lemma run_lit_inv b s env K r :
  Re.run (Re.Chr (Re.Lit b)) s env K = Some r →
  ∃ rest, s = String b rest ∧ K (String b "") rest env = Some r.
Proof.
  destruct s as [|a s]; [done|]. simpl.
  destruct (Ascii.eqb a b) eqn:Hab; [|done].
  apply Ascii.eqb_eq in Hab as ->. eauto.
Qed.

End Matcher.

Section MatcherEquations.

Context {A : Type}.
Implicit Types (K : string → string → Re.captures → option A).

Lemma run_cat r1 r2 s env K :
  Re.run (Re.Cat r1 r2) s env K =
  Re.run r1 s env (λ t1 s1 env1,
    Re.run r2 s1 env1 (λ t2 s2 env2, K (t1 +:+ t2) s2 env2)).
Proof. reflexivity. Qed.

Lemma run_group name r s env K :
  Re.run (Re.Group name r) s env K =
  Re.run r s env (λ t s' env', K t s' ((name, t) :: env')).
Proof. reflexivity. Qed.

Lemma run_lit b s env K :
  Re.run (Re.Chr (Re.Lit b)) (String b s) env K = K (String b "") s env.
Proof. simpl. by rewrite Ascii.eqb_refl. Qed.

(** The optional group [extra] always takes part in the match. *)
Lemma run_extra s env K :
  (∀ t s' env', is_Some (K t s' env')) →
  ∃ t s', Re.run (Re.Opt (Re.Group "extra" (Re.Star Re.Dot))) s env K
          = K t s' (("extra", t) :: env).
Proof.
  intros HK. simpl.
  destruct (rep_total Re.Dot s "" (λ t s', K t s' (("extra", t) :: env)))
    as (ds & rest & ->); [by intros; apply HK|].
  rewrite !append_empty_l. exists ds, rest.
  by destruct (HK ds rest (("extra", ds) :: env)) as [r ->].
Qed.

(** So does the tail of [RELEASE_REGEXP], which never fails. *)
Lemma run_tail s env K :
  (∀ t s' env', is_Some (K t s' env')) →
  ∃ t s' e,
    Re.run (Re.Cat (Re.Opt (Re.Chr (Re.Lit "."%char)))
                   (Re.Opt (Re.Group "extra" (Re.Star Re.Dot)))) s env K
    = K t s' (("extra", e) :: env).
Proof.
  intros HK. rewrite run_cat.
  set (K1 := λ t1 s1 env1, Re.run _ s1 env1 _).
  assert (HK1 : ∀ t1 s1, ∃ t s' e, K1 t1 s1 env = K t s' (("extra", e) :: env)).
  { intros t1 s1. unfold K1.
    destruct (run_extra s1 env (λ t2 s2 env2, K (t1 +:+ t2) s2 env2))
      as (t & s' & ->); [by intros; apply HK|]. eauto. }
  change (Re.run (Re.Opt ?r) s env K1)
    with (match Re.run r s env K1 with Some x => Some x | None => K1 "" s env end).
  destruct (Re.run _ s env K1) as [x|] eqn:Hrun; [|by apply HK1].
  apply run_lit_inv in Hrun as (rest & -> & Hx). rewrite <- Hx. apply HK1.
Qed.

Lemma run_plus_post (P : A → Prop) c a ds rest env K :
  Re.accepts c a = true →
  Re.all_chars (Re.accepts c) ds = true →
  takes_head c rest = false →
  (∃ r, K (String a ds) rest env = Some r ∧ P r) →
  ∃ r, Re.run (Re.Plus c) (String a ds +:+ rest) env K = Some r ∧ P r.
Proof.
  intros Ha Hall Hhead (r & HK & HP). exists r. split; [|done].
  rewrite run_plus_greedy; by rewrite ?HK.
Qed.

End MatcherEquations.

(** ** [RELEASE_REGEXP] *)

(** On [<major>.<minor>.<patch><suffix>], the patch token being the whole
    run of digits, the three numeric groups are the three tokens, and the
    group [extra] has taken part. *)
Lemma release_regexp_match major minor patch suffix :
  numeric major = true → numeric minor = true → numeric patch = true →
  starts_with_digit suffix = false →
  ∃ mo, Re.match_ RELEASE_REGEXP (version_string major minor patch suffix)
        = Some mo ∧
        Re.m_pattern mo = RELEASE_REGEXP ∧
        ∃ extra, Re.m_captures mo =
                 [("extra", extra); ("patch", patch); ("minor", minor);
                  ("major", major)].
Proof.
  intros (a1 & s1 & -> & Ha1 & Hs1)%numeric_inv
         (a2 & s2 & -> & Ha2 & Hs2)%numeric_inv
         (a3 & s3 & -> & Ha3 & Hs3)%numeric_inv Hsuffix.
  unfold Re.match_, RELEASE_REGEXP, version_string.
  rewrite run_cat, run_group. apply run_plus_post; [done..|].
  rewrite run_cat, append_cons, run_lit.
  rewrite run_cat, run_group. apply run_plus_post; [done..|].
  rewrite run_cat, append_cons, run_lit.
  rewrite run_cat, run_group. apply run_plus_post; [done..|].
  match goal with
  | |- ∃ r, Re.run ?t ?s ?env ?K = _ ∧ _ =>
      destruct (run_tail s env K) as (t' & s' & e & ->); [by eauto|]
  end.
  eexists. split; [reflexivity|]. simpl. eauto.
Qed.

(** Conversely, whatever [RELEASE_REGEXP] matches is well formed. *)
Lemma release_regexp_well_formed s mo :
  Re.match_ RELEASE_REGEXP s = Some mo → well_formed s.
Proof.
  unfold Re.match_, RELEASE_REGEXP.
  rewrite run_cat, run_group.
  intros (a1 & s1 & r1 & -> & Ha1 & Hs1 & H)%run_plus_inv.
  rewrite run_cat in H. apply run_lit_inv in H as (r1' & -> & H).
  rewrite run_cat, run_group in H.
  apply run_plus_inv in H as (a2 & s2 & r2 & -> & Ha2 & Hs2 & H).
  rewrite run_cat in H. apply run_lit_inv in H as (r2' & -> & H).
  rewrite run_cat, run_group in H.
  apply run_plus_inv in H as (a3 & s3 & r3 & -> & Ha3 & Hs3 & H).
  exists (String a1 s1), (String a2 s2), (String a3 s3), r3.
  clear H. simpl in Ha1, Ha2, Ha3.
  unfold numeric. simpl Re.all_chars.
  change (Re.accepts Re.Digit) with Re.is_digit in *.
  by rewrite Ha1, Hs1, Ha2, Hs2, Ha3, Hs3.
Qed.

Lemma malformed_no_match s :
  malformed s → Re.match_ RELEASE_REGEXP s = None.
Proof.
  intros Hs. destruct (Re.match_ RELEASE_REGEXP s) as [mo|] eqn:Hm; [|done].
  by apply release_regexp_well_formed in Hm.
Qed.

(** A well-formed string is matched, the suffix giving its leading digits
    to the patch token. *)
Lemma well_formed_match s :
  well_formed s → is_Some (Re.match_ RELEASE_REGEXP s).
Proof.
  intros (major & minor & patch & suffix & HM & Hm & Hp & ->).
  revert patch Hp. induction suffix as [|a suffix IH]; intros patch Hp.
  - destruct (release_regexp_match major minor patch "") as (mo & -> & _); eauto.
  - destruct (Re.is_digit a) eqn:Ha.
    + specialize (IH (patch +:+ String a "")).
      unfold version_string in *.
      rewrite append_assoc in IH. apply IH. by apply numeric_snoc.
    + destruct (release_regexp_match major minor patch (String a suffix))
        as (mo & -> & _); eauto.
Qed.

(** ** The constructor *)

Section Constructor.

Context {TaskRef World : Type}.
Implicit Types (st : @state TaskRef World)
               (d : gmap string (value TaskRef)) (v fs : value TaskRef).

Lemma bind_run {A B} (c : M A) (k : A → M B) st :
  (c ≫= k) st = match c st with
                | (inr x, st') => k x st'
                | (inl e, st') => (inl e, st')
                end.
Proof. reflexivity. Qed.

Lemma seed_idiom k v st :
  (db_get k VNone ≫= λ r, if negb (truthy r) then db_setitem k v else ret ()) st
  = (inr (), seed_state k v st).
Proof.
  rewrite bind_run. unfold db_get, seed_state, lookup_truthy.
  destruct (db st !! k) as [x|]; simpl; [|done].
  by destruct (truthy x).
Qed.

Lemma seed_idiom_then {B} k v (rest : M B) st :
  (db_get k VNone ≫= λ r,
     (if negb (truthy r) then db_setitem k v else ret ()) ≫= λ _, rest) st
  = rest (seed_state k v st).
Proof.
  rewrite bind_run. unfold db_get, seed_state, lookup_truthy.
  destruct (db st !! k) as [x|]; simpl; [|done].
  by destruct (truthy x).
Qed.

Lemma db_seed_state k v st : db (seed_state k v st) = seed_if_unset k v (db st).
Proof. unfold seed_state, seed_if_unset. by destruct (lookup_truthy _ _). Qed.

Lemma seed_release_match (s : string) mo st :
  Re.match_ RELEASE_REGEXP s = Some mo →
  seed_release (Some s) st =
    (inr (),
     seed_state "release_branch"
       (VStr (if bool_decide (Re.groupdict mo !! "extra" = None)
              then normalized mo else "master"))
       (seed_state "normalized_release" (VStr (normalized mo))
          (seed_state "release" (VStr s) st))).
Proof.
  intros Hm. unfold seed_release, release_match, match_group.
  rewrite bind_run. unfold ret at 1. rewrite Hm.
  rewrite bind_run. unfold ret at 1.
  rewrite bind_run. unfold ret at 1.
  rewrite bind_run. unfold ret at 1.
  by rewrite !seed_idiom_then, seed_idiom.
Qed.

Lemma seed_release_spec release st :
  fst (seed_release release st) = release_result release ∧
  db (snd (seed_release release st)) = release_db release (db st) ∧
  current_task (snd (seed_release release st)) = current_task st ∧
  completed_tasks (snd (seed_release release st)) = completed_tasks st.
Proof.
  destruct release as [s|]; [|done]. unfold release_result, release_db.
  destruct (Re.match_ RELEASE_REGEXP s) as [mo|] eqn:Hm.
  - rewrite (seed_release_match _ _ _ Hm). simpl.
    rewrite !db_seed_state. unfold seed_state.
    by repeat (destruct (lookup_truthy _ _)).
  - unfold seed_release, release_match, match_group.
    rewrite bind_run. unfold ret at 1. by rewrite Hm.
Qed.

Lemma open_store_run st : open_store st = (inr (), write (open_db (db st)) st).
Proof.
  unfold open_store. rewrite bind_run. unfold db_get, open_db, lookup_truthy.
  destruct (db st !! "finished") as [x|]; simpl; [|done].
  by destruct (truthy x).
Qed.

Lemma init_attributes_run fs st :
  init_attributes fs st =
  (inr (), State (db st) (environ st) fs
                 (default (VList []) (db st !! "completed_tasks"))
                 (world st) (history st)).
Proof.
  unfold init_attributes. rewrite bind_run. simpl. rewrite bind_run. simpl.
  by destruct (db st !! "completed_tasks").
Qed.

Lemma has_nul_truthy s :
  has_nul s = true → truthy (VStr s : value TaskRef) = true.
Proof. by destruct s. Qed.

Lemma export_gpg_key_spec st :
  fst (export_gpg_key st)
    = (if gpg_exportable (db st) then inr ()
       else inl (gpg_export_error (db st))) ∧
  db (snd (export_gpg_key st)) = db st ∧
  current_task (snd (export_gpg_key st)) = current_task st ∧
  completed_tasks (snd (export_gpg_key st)) = completed_tasks st.
Proof.
  unfold export_gpg_key, gpg_exportable, gpg_export_error. rewrite bind_run.
  unfold db_get, db_getitem. simpl.
  destruct (db st !! "gpg_key") as [v|] eqn:Hv; simpl; [|done].
  destruct (truthy v) eqn:Ht.
  - rewrite bind_run, Hv. destruct v as [| |s| | |]; try done.
    unfold environ_setitem. by destruct (has_nul s).
  - destruct v as [| |s| | |]; try done.
    destruct (has_nul s) eqn:Hs; [|done].
    by rewrite (has_nul_truthy s Hs) in Ht.
Qed.

Lemma seed_git_repo_spec git_repo st :
  fst (seed_git_repo git_repo st)
    = (if git_repo is Some _ then inr ()
       else if lookup_truthy (db st) "git_repo" then inr () else inl TypeError) ∧
  db (snd (seed_git_repo git_repo st))
    = match git_repo with
      | Some p => seed_if_unset "git_repo" (VPath p) (db st)
      | None => db st
      end ∧
  current_task (snd (seed_git_repo git_repo st)) = current_task st ∧
  completed_tasks (snd (seed_git_repo git_repo st)) = completed_tasks st.
Proof.
  unfold seed_git_repo, seed_if_unset, lookup_truthy. rewrite bind_run.
  unfold db_get. simpl.
  destruct (db st !! "git_repo") as [v|]; simpl;
    [destruct (truthy v); simpl|]; by destruct git_repo.
Qed.

Lemma init_spec release git_repo fs st :
  let res := __init__ release git_repo fs st in
  fst res = init_result release git_repo (db st) ∧
  db (snd res) = init_db release git_repo (db st) ∧
  current_task (snd res) = fs ∧
  completed_tasks (snd res)
    = default (VList []) (open_db (db st) !! "completed_tasks").
Proof.
  unfold __init__, init_result, init_db, configure_result, configure_db.
  rewrite bind_run, open_store_run.
  rewrite bind_run, init_attributes_run.
  set (st2 := State _ _ _ _ _ _).
  rewrite bind_run.
  destruct (export_gpg_key_spec st2) as (Hr & Hd & Hc & Hl).
  destruct (export_gpg_key st2) as [[e|[]] st3]; simpl in *;
    destruct (gpg_exportable _); try done.
  rewrite bind_run.
  destruct (seed_git_repo_spec git_repo st3) as (Hr' & Hd' & Hc' & Hl').
  destruct (seed_git_repo git_repo st3) as [[e|[]] st4]; simpl in *;
    rewrite Hd in *;
    destruct (seed_release_spec release st4) as (Hr'' & Hd'' & Hc'' & Hl'');
    destruct git_repo as [p|];
    try destruct (lookup_truthy (open_db (db st)) "git_repo");
    simplify_eq; repeat split; congruence.
Qed.

End Constructor.

(** ** What the matcher returns *)

(** Whatever [run] returns was returned by its continuation. *)
Lemma run_some {A : Type} r s env (K : string → string → Re.captures → option A) x :
  Re.run r s env K = Some x → ∃ t s' env', K t s' env' = Some x.
Proof.
  revert s env K. induction r as [c|c|c|r IH|r1 IH1 r2 IH2|name r IH];
    intros s env K H.
  - destruct s as [|a s]; [done|]. simpl in H.
    destruct (Re.accepts c a); [eauto|done].
  - apply rep_inv in H as (ds & rest & _ & _ & H). eauto.
  - apply run_plus_inv in H as (a & ds & rest & _ & _ & _ & H). eauto.
  - simpl in H. destruct (Re.run r s env K) as [y|] eqn:Hr; [|eauto].
    injection H as ->. eauto.
  - rewrite run_cat in H. apply IH1 in H as (t1 & s1 & env1 & H).
    apply IH2 in H as (t2 & s2 & env2 & H). eauto.
  - rewrite run_group in H. apply IH in H as (t & s' & env' & H). eauto.
Qed.

Lemma match_pattern r s mo : Re.match_ r s = Some mo → Re.m_pattern mo = r.
Proof.
  intros (t & s' & env' & H)%run_some. by injection H as <-.
Qed.

(** [groupdict()] of a match of [RELEASE_REGEXP] always has the key
    [extra], whether or not the string has a suffix. *)
Lemma groupdict_extra s mo :
  Re.match_ RELEASE_REGEXP s = Some mo → Re.groupdict mo !! "extra" ≠ None.
Proof.
  intros Hm%match_pattern. unfold Re.groupdict. rewrite Hm. simpl.
  do 3 (rewrite lookup_insert_ne by done). by rewrite lookup_insert_eq.
Qed.

Lemma release_branch_value s mo :
  Re.match_ RELEASE_REGEXP s = Some mo →
  (if bool_decide (Re.groupdict mo !! "extra" = None)
   then normalized mo else "master") = "master".
Proof. intros Hm%groupdict_extra. by rewrite bool_decide_eq_false_2. Qed.

(** ** Seeding, key by key *)

(** Membership in a list of literal keys. *)
Ltac in_keys :=
  unfold seeded_keys, engine_keys;
  repeat first [apply list_elem_of_here | apply list_elem_of_further].
Ltac absurd_key H :=
  exfalso; unfold seeded_keys, engine_keys in H;
  repeat (apply elem_of_cons in H as [?|H]; [done|]);
  by apply elem_of_nil in H.
Ltac in_tools :=
  unfold Tasks.tool_checks;
  repeat first [apply list_elem_of_here | apply list_elem_of_further].
Ltac split_keys H :=
  unfold seeded_keys, engine_keys in H;
  repeat (apply elem_of_cons in H as [->|H]); [..|by apply elem_of_nil in H].

Section Seeding.

Context {TaskRef : Type}.
Implicit Types (d : gmap string (value TaskRef)) (v : value TaskRef).

Lemma seed_if_unset_ne k k' v d :
  k ≠ k' → seed_if_unset k v d !! k' = d !! k'.
Proof.
  intros Hne. unfold seed_if_unset.
  destruct (lookup_truthy d k); [done|]. by rewrite lookup_insert_ne.
Qed.

Lemma seed_if_unset_set k v d :
  lookup_truthy d k = true → seed_if_unset k v d = d.
Proof. intros H. unfold seed_if_unset. by rewrite H. Qed.

Lemma seed_if_unset_unset k v d :
  lookup_truthy d k = false → seed_if_unset k v d !! k = Some v.
Proof.
  intros H. unfold seed_if_unset. rewrite H. apply lookup_insert_eq.
Qed.

Lemma lookup_truthy_seed_ne k k' v d :
  k ≠ k' → lookup_truthy (seed_if_unset k v d) k' = lookup_truthy d k'.
Proof. intros Hne. unfold lookup_truthy. by rewrite seed_if_unset_ne. Qed.

(** Seeding fills a key that holds nothing and leaves the rest alone. *)
Lemma seed_if_unset_fills k v d k' :
  seed_if_unset k v d !! k' = d !! k' ∨
  (k' = k ∧ lookup_truthy d k = false).
Proof.
  destruct (decide (k = k')) as [<-|Hne].
  - destruct (lookup_truthy d k) eqn:H; [|by right].
    left. by rewrite seed_if_unset_set.
  - left. by apply seed_if_unset_ne.
Qed.

Lemma lookup_truthy_Some d k v :
  d !! k = Some v → lookup_truthy d k = truthy v.
Proof. intros H. unfold lookup_truthy. by rewrite H. Qed.

Lemma open_db_unfinished d :
  lookup_truthy d "finished" = false →
  open_db d = <["finished":=VBool false]> d.
Proof. intros H. unfold open_db. by rewrite H. Qed.

Lemma open_db_finished d :
  lookup_truthy d "finished" = true → open_db d = ∅.
Proof. intros H. unfold open_db. by rewrite H. Qed.

(** [release_db] fills the three keys derived from the version. *)
Lemma release_db_fills release d k :
  release_db release d !! k = d !! k ∨
  (k ∈ ["release"; "normalized_release"; "release_branch"] ∧
   lookup_truthy d k = false).
Proof.
  unfold release_db. destruct release as [s|]; [|by left].
  destruct (Re.match_ RELEASE_REGEXP s) as [mo|]; [|by left].
  destruct (seed_if_unset_fills "release_branch"
    (VStr (if bool_decide (Re.groupdict mo !! "extra" = None)
           then normalized mo else "master"))
    (seed_if_unset "normalized_release" (VStr (normalized mo))
       (seed_if_unset "release" (VStr s) d)) k) as [->|[-> H]].
  - destruct (seed_if_unset_fills "normalized_release"
      (VStr (normalized mo)) (seed_if_unset "release" (VStr s) d) k)
      as [->|[-> H]].
    + destruct (seed_if_unset_fills "release" (VStr s) d k)
        as [->|[-> H]]; [by left|].
      right. split; [in_keys|done].
    + right. split; [in_keys|].
      by rewrite lookup_truthy_seed_ne in H.
  - right. split; [in_keys|].
    by rewrite !lookup_truthy_seed_ne in H.
Qed.

(** [init_db] fills the four seeded keys of the opened store. *)
Lemma init_db_fills release git_repo d k :
  init_db release git_repo d !! k = open_db d !! k ∨
  (k ∈ seeded_keys ∧ lookup_truthy (open_db d) k = false).
Proof.
  unfold init_db, configure_db.
  destruct (gpg_exportable (open_db d)); [|by left].
  destruct git_repo as [p|].
  - destruct (release_db_fills release
      (seed_if_unset "git_repo" (VPath p) (open_db d)) k) as [->|[Hk H]].
    + destruct (seed_if_unset_fills "git_repo" (VPath p) (open_db d) k)
        as [->|[-> H]]; [by left|].
      right. split; [in_keys|done].
    + right. split; [by apply list_elem_of_further|].
      rewrite lookup_truthy_seed_ne in H; [done|]. by split_keys Hk.
  - destruct (lookup_truthy (open_db d) "git_repo"); [|by left].
    destruct (release_db_fills release (open_db d) k) as [->|[Hk H]];
      [by left|].
    right. split; [by apply list_elem_of_further|done].
Qed.

End Seeding.

(** ** The version-derived keys *)

Section Release.

Context {TaskRef World : Type}.
Implicit Types (st : @state TaskRef World) (fs : value TaskRef).

Lemma db_open_store st : db (snd (open_store st)) = open_db (db st).
Proof. by rewrite open_store_run. Qed.

(** Whatever version the regexp accepts, and whether or not it carries a
    suffix, a branch name that is not set yet becomes [master]. *)
Lemma release_branch_master s git_repo fs st :
  fst (__init__ (Some s) git_repo fs st) = inr () →
  lookup_truthy (db (snd (open_store st))) "release_branch" = false →
  db (snd (__init__ (Some s) git_repo fs st)) !! "release_branch"
    = Some (VStr "master").
Proof.
  rewrite db_open_store.
  destruct (init_spec (Some s) git_repo fs st) as (-> & -> & _).
  unfold init_result, init_db, configure_result, configure_db.
  destruct (gpg_exportable _); [|done].
  intros Hres Hunset.
  assert (∀ d : gmap string (value TaskRef),
            release_result (Some s) = inr () →
            lookup_truthy d "release_branch" = false →
            release_db (Some s) d !! "release_branch" = Some (VStr "master"))
    as Hrel.
  { intros d. unfold release_result, release_db.
    destruct (Re.match_ RELEASE_REGEXP s) as [mo|] eqn:Hm; [|done].
    intros _ Hd. rewrite (release_branch_value s mo Hm).
    apply seed_if_unset_unset. by rewrite !lookup_truthy_seed_ne. }
  destruct git_repo as [p|].
  - apply Hrel; [done|]. by rewrite lookup_truthy_seed_ne.
  - destruct (lookup_truthy _ "git_repo"); [|done]. by apply Hrel.
Qed.

(** C9. For every version string [<major>.<minor>.<patch><suffix>] (three
    numeric tokens, the patch token being the whole run of digits, and any
    suffix), constructing the engine on a store that holds no normalized
    release yet succeeds and stores exactly [<major>.<minor>.<patch>]
    under [normalized_release], the suffix dropped. *)
Theorem C9_normalized_release major minor patch suffix path fs st :
  numeric major = true → numeric minor = true → numeric patch = true →
  starts_with_digit suffix = false →
  gpg_exportable (db (snd (open_store st))) = true →
  lookup_truthy (db (snd (open_store st))) "normalized_release" = false →
  let res := __init__ (Some (version_string major minor patch suffix))
                      (Some path) fs st in
  fst res = inr () ∧
  db (snd res) !! "normalized_release"
    = Some (VStr (major +:+ "." +:+ minor +:+ "." +:+ patch)).
Proof.
  intros HM Hm Hp Hsuffix. rewrite db_open_store. intros Hgpg Hunset res.
  destruct (release_regexp_match major minor patch suffix HM Hm Hp Hsuffix)
    as (mo & Hmatch & _ & extra & Hcap).
  destruct (init_spec (Some (version_string major minor patch suffix))
                      (Some path) fs st) as (Hres & Hdb & _).
  fold res in Hres, Hdb. rewrite Hres, Hdb.
  unfold init_result, init_db, configure_result, configure_db,
    release_result, release_db.
  rewrite Hgpg, Hmatch. split; [done|].
  rewrite seed_if_unset_ne by done.
  rewrite seed_if_unset_unset by (by rewrite !lookup_truthy_seed_ne).
  unfold normalized, Re.group. by rewrite Hcap.
Qed.

End Release.

Lemma C9_normalized_release_witness :
  let res := __init__ (Some "3.10.1a2") (Some "/repo") VNone
                      (@boot Tasks.TaskRef unit ∅ ()) in
  fst res = inr () ∧
  db (snd res) !! "normalized_release" = Some (VStr "3.10.1").
Proof.
  apply (C9_normalized_release "3" "10" "1" "a2" "/repo" VNone
           (@boot Tasks.TaskRef unit ∅ ())); reflexivity.
Defined.

(** C1. The branch of a version without suffix: on [3.10.1], a valid
    version string with no suffix, a new store receives the release branch
    [master] where the specification expects [3.10.1]; [groupdict()]
    always has the key [extra], so the test of [__init__] never selects
    [<major>.<minor>.<patch>]. *)
Theorem C1_release_branch_without_suffix :
  let res := __init__ (Some "3.10.1") (Some "/repo") VNone
                      (@boot Tasks.TaskRef unit ∅ ()) in
  fst res = inr () ∧
  (Re.match_ RELEASE_REGEXP "3.10.1" ≫= λ mo, Re.group mo "extra") = Some "" ∧
  db (snd res) !! "normalized_release" = Some (VStr "3.10.1") ∧
  db (snd res) !! "release_branch" = Some (VStr "master").
Proof. vm_compute. done. Qed.

(** ** Malformed versions *)

Section Malformed.

Context {TaskRef World : Type}.
Implicit Types (st : @state TaskRef World) (fs : value TaskRef).

(** C2, as the code has it. For every malformed version string the
    construction of the engine fails, and it writes none of the keys
    derived from the version: once the store is opened, [git_repo] is the
    only key it may have written. *)
Theorem C2_malformed_release s git_repo fs st :
  malformed s →
  let res := __init__ (Some s) git_repo fs st in
  (∃ e, fst res = inl e) ∧
  ∀ k, k ≠ "git_repo" → db (snd res) !! k = db (snd (open_store st)) !! k.
Proof.
  intros Hs%malformed_no_match res. rewrite db_open_store.
  destruct (init_spec (Some s) git_repo fs st) as (Hres & Hdb & _).
  fold res in Hres, Hdb. rewrite Hres, Hdb.
  unfold init_result, init_db, configure_result, configure_db,
    release_result, release_db.
  rewrite Hs. split.
  - destruct (gpg_exportable _); [|by eauto].
    destruct git_repo; [by eauto|]. destruct (lookup_truthy _ _); eauto.
  - intros k Hk. destruct (gpg_exportable _); [|done].
    destruct git_repo as [p|]; [by rewrite seed_if_unset_ne|].
    by destruct (lookup_truthy _ _).
Qed.

End Malformed.

Lemma malformed_3_10 : malformed "3.10".
Proof. intros [mo Hmo]%well_formed_match. by vm_compute in Hmo. Defined.

Lemma C2_malformed_release_witness :
  let res := __init__ (Some "3.10") (Some "/repo") VNone
                      (@boot Tasks.TaskRef unit ∅ ()) in
  (∃ e, fst res = inl e) ∧
  ∀ k, k ≠ "git_repo" →
       db (snd res) !! k
       = db (snd (open_store (@boot Tasks.TaskRef unit ∅ ()))) !! k.
Proof.
  apply (C2_malformed_release "3.10" (Some "/repo") VNone
           (@boot Tasks.TaskRef unit ∅ ())).
  exact malformed_3_10.
Defined.

(** C2, as the specification states it, fails on [3.10], which has no
    patch component: the construction raises [AttributeError], not the
    [ValueError] that reports an invalid release, and by then the domain key
    [git_repo], absent from the store before, has been seeded. *)
Lemma C2_counterexample :
  malformed "3.10" ∧
  let st := @boot Tasks.TaskRef unit ∅ () in
  let res := __init__ (Some "3.10") (Some "/repo") VNone st in
  fst res = inl AttributeError ∧
  (∀ msg, fst res ≠ inl (ValueError msg)) ∧
  db st !! "git_repo" = None ∧
  db (snd res) !! "git_repo" = Some (VPath "/repo").
Proof.
  split; [exact malformed_3_10|]. by vm_compute.
Qed.

(** ** Seeding twice *)

Section Idempotence.

Context {TaskRef World : Type}.
Implicit Types (st : @state TaskRef World) (fs v : value TaskRef).

Lemma seeded_key_kept release git_repo fs st k v :
  k ∈ seeded_keys →
  db st !! k = Some v → truthy v = true →
  lookup_truthy (db st) "finished" = false →
  db (snd (__init__ release git_repo fs st)) !! k = Some v.
Proof.
  intros Hk Hv Htrue Hfin.
  destruct (init_spec release git_repo fs st) as (_ & -> & _).
  assert (open_db (db st) !! k = Some v) as Hopen.
  { rewrite open_db_unfinished by done.
    rewrite lookup_insert_ne; [done|]. by split_keys Hk. }
  destruct (init_db_fills release git_repo (db st) k) as [->|[_ H]]; [done|].
  rewrite (lookup_truthy_Some _ _ _ Hopen) in H. congruence.
Qed.

(** C8. For each of the keys written during seeding, [git_repo],
    [release], [normalized_release] and [release_branch]: when the store
    of an unfinished run already holds a value under the key,
    constructing the engine again, with whatever arguments and whether or
    not the construction succeeds, leaves that value unchanged. *)
Theorem C8_seeding_idempotent release git_repo fs st k v :
  k ∈ seeded_keys →
  db st !! k = Some v → truthy v = true →
  lookup_truthy (db st) "finished" = false →
  db (snd (__init__ release git_repo fs st)) !! k = Some v.
Proof. apply seeded_key_kept. Qed.

Lemma truthy_dotted x y : truthy (TaskRef:=TaskRef) (VStr (x +:+ "." +:+ y)) = true.
Proof. by destruct x. Qed.

Lemma lookup_truthy_seed_eq k v (d : gmap string (value TaskRef)) :
  truthy v = true → lookup_truthy (seed_if_unset k v d) k = true.
Proof.
  intros Hv. unfold seed_if_unset.
  destruct (lookup_truthy d k) eqn:H; [done|].
  unfold lookup_truthy. by rewrite lookup_insert_eq.
Qed.

(** After a construction that succeeded, the four seeded keys hold
    values and the run is not finished ... *)
Lemma init_seeds release git_repo fs st k :
  fst (__init__ release git_repo fs st) = inr () →
  k ∈ seeded_keys →
  lookup_truthy (db (snd (__init__ release git_repo fs st))) k = true.
Proof.
  destruct (init_spec release git_repo fs st) as (-> & -> & _).
  unfold init_result, init_db, configure_result, configure_db,
    release_result, release_db.
  destruct (gpg_exportable _); [|done].
  destruct release as [s|]; [|by destruct git_repo, (lookup_truthy _ _)].
  destruct (Re.match_ RELEASE_REGEXP s) as [mo|] eqn:Hm;
    [|by destruct git_repo, (lookup_truthy _ _)].
  rewrite (release_branch_value s mo Hm).
  assert (truthy (TaskRef:=TaskRef) (VStr s) = true) as Hs.
  { apply release_regexp_well_formed in Hm
      as (major & ? & ? & ? & HM & _ & _ & ->).
    apply numeric_inv in HM as (a & ? & -> & _). done. }
  intros Hres Hk.
  assert (∀ d : gmap string (value TaskRef),
    lookup_truthy d "git_repo" = true →
    lookup_truthy
      (seed_if_unset "release_branch" (VStr "master")
         (seed_if_unset "normalized_release" (VStr (normalized mo))
            (seed_if_unset "release" (VStr s) d))) k = true) as Hall.
  { intros d Hd. split_keys Hk.
    - by rewrite !lookup_truthy_seed_ne.
    - rewrite !lookup_truthy_seed_ne by done. by apply lookup_truthy_seed_eq.
    - rewrite lookup_truthy_seed_ne by done.
      apply lookup_truthy_seed_eq, truthy_dotted.
    - by apply lookup_truthy_seed_eq. }
  destruct git_repo as [p|].
  - by apply Hall, lookup_truthy_seed_eq.
  - destruct (lookup_truthy _ "git_repo") eqn:Hg; [|done]. by apply Hall.
Qed.

Lemma init_unfinished release git_repo fs st :
  lookup_truthy (db (snd (__init__ release git_repo fs st))) "finished"
    = false.
Proof.
  destruct (init_spec release git_repo fs st) as (_ & Hdb & _).
  assert (lookup_truthy (open_db (db st)) "finished" = false) as Hopen.
  { unfold open_db. destruct (lookup_truthy (db st) "finished"); [done|].
    unfold lookup_truthy. by rewrite lookup_insert_eq. }
  unfold lookup_truthy in *. rewrite Hdb.
  destruct (init_db_fills release git_repo (db st) "finished")
    as [->|[Hk _]]; [done|]. absurd_key Hk.
Qed.

(** ... so that constructing the engine a second time, on the store the
    first construction left, changes none of the seeded keys. *)
Lemma init_again release git_repo fs release' git_repo' fs' st k :
  fst (__init__ release git_repo fs st) = inr () →
  k ∈ seeded_keys →
  let st1 := snd (__init__ release git_repo fs st) in
  db (snd (__init__ release' git_repo' fs' st1)) !! k = db st1 !! k.
Proof.
  intros Hres Hk st1.
  pose proof (init_seeds release git_repo fs st k Hres Hk) as Hset.
  fold st1 in Hset. unfold lookup_truthy in Hset.
  destruct (db st1 !! k) as [v|] eqn:Hv; [|done].
  apply seeded_key_kept; try done. apply init_unfinished.
Qed.

End Idempotence.

Lemma C8_seeding_idempotent_witness :
  let st := @boot Tasks.TaskRef unit
              (<["release":=VStr "3.9.0"]> (<["finished":=VBool false]> ∅)) () in
  db (snd (__init__ (Some "3.10.1") (Some "/repo") VNone st)) !! "release"
    = Some (VStr "3.9.0").
Proof.
  apply (C8_seeding_idempotent (Some "3.10.1") (Some "/repo") VNone
           (@boot Tasks.TaskRef unit
              (<["release":=VStr "3.9.0"]> (<["finished":=VBool false]> ∅)) ())
           "release" (VStr "3.9.0")).
  - in_keys.
  - reflexivity.
  - reflexivity.
  - reflexivity.
Defined.

(** ** Opening the store *)

Section Opening.

Context {TaskRef World : Type}.
Implicit Types (st : @state TaskRef World) (fs v : value TaskRef)
               (d : gmap string (value TaskRef)).

Lemma lookup_truthy_insert_ne f v d k :
  f ≠ k → lookup_truthy (<[f:=v]> d) k = lookup_truthy d k.
Proof. intros Hne. unfold lookup_truthy. by rewrite lookup_insert_ne. Qed.

Lemma seed_if_unset_insert f v k x d :
  f ≠ k → seed_if_unset k x (<[f:=v]> d) = <[f:=v]> (seed_if_unset k x d).
Proof.
  intros Hne. unfold seed_if_unset. rewrite lookup_truthy_insert_ne by done.
  destruct (lookup_truthy d k); [done|]. by apply insert_insert_ne.
Qed.

Lemma release_db_insert release v d :
  release_db release (<["finished":=v]> d)
  = <["finished":=v]> (release_db release d).
Proof.
  unfold release_db. destruct release as [s|]; [|done].
  destruct (Re.match_ RELEASE_REGEXP s) as [mo|]; [|done].
  by rewrite !seed_if_unset_insert.
Qed.

(** Nothing that follows the opening of the store looks at the flag
    [finished]. *)
Lemma configure_insert release git_repo v d :
  configure_result release git_repo (<["finished":=v]> d)
    = configure_result release git_repo d ∧
  configure_db release git_repo (<["finished":=v]> d)
    = <["finished":=v]> (configure_db release git_repo d).
Proof.
  unfold configure_result, configure_db, gpg_exportable, gpg_export_error.
  rewrite lookup_insert_ne by done.
  rewrite lookup_truthy_insert_ne by done.
  destruct (match d !! "gpg_key" with Some _ => _ | None => true end); [|done].
  destruct git_repo as [p|].
  - by rewrite seed_if_unset_insert, release_db_insert.
  - destruct (lookup_truthy d "git_repo"); [|done].
    by rewrite release_db_insert.
Qed.

(** C6. Constructing the engine against a store whose run is finished
    empties the store: the history of completed tasks, the checkpoint and
    every other key are gone, and the construction goes on as it does on a
    new store (result and every key but the flag itself, which the new
    store gets and the emptied one does not).  Where the flag is absent it
    is set to [False].  Where the flag is there and [False] the store is
    kept as it is: the engine takes the recorded history, and every key
    that holds a value or is not one of the seeded keys is still there
    after the construction. *)
Theorem C6_open_protocol release git_repo fs st :
  (db st !! "finished" = Some (VBool true) →
     let res := __init__ release git_repo fs st in
     let fresh := __init__ release git_repo fs (boot ∅ (world st)) in
     db (snd (open_store st)) = ∅ ∧
     completed_tasks (snd res) = VList [] ∧
     db (snd res) !! "completed_tasks" = None ∧
     db (snd res) !! "last_checkpoint" = None ∧
     fst res = fst fresh ∧
     ∀ k, k ≠ "finished" → db (snd res) !! k = db (snd fresh) !! k) ∧
  (db st !! "finished" = None →
     db (snd (open_store st)) = <["finished":=VBool false]> (db st)) ∧
  (db st !! "finished" = Some (VBool false) →
     let res := __init__ release git_repo fs st in
     db (snd (open_store st)) = db st ∧
     completed_tasks (snd res)
       = default (VList []) (db st !! "completed_tasks") ∧
     ∀ k v, db st !! k = Some v → truthy v = true ∨ k ∉ seeded_keys →
            db (snd res) !! k = Some v).
Proof.
  rewrite !db_open_store. split; [|split].
  - intros Hfin res fresh.
    assert (open_db (db st) = ∅) as Hopen.
    { apply open_db_finished. by rewrite (lookup_truthy_Some _ _ _ Hfin). }
    destruct (init_spec release git_repo fs st) as (Hres & Hdb & _ & Hc).
    destruct (init_spec release git_repo fs (boot ∅ (world st)))
      as (Hres' & Hdb' & _).
    fold res in Hres, Hdb, Hc. fold fresh in Hres', Hdb'.
    pose proof (init_db_fills release git_repo (db st)) as Hfills.
    rewrite <- Hdb, Hopen in Hfills.
    unfold init_result, init_db in *. rewrite Hopen in *.
    change (open_db (db (boot ∅ (world st))))
      with (<["finished":=VBool false]> (∅ : gmap string (value TaskRef)))
      in *.
    destruct (configure_insert release git_repo (VBool false) ∅)
      as (Hcr & Hcd).
    rewrite Hcr in Hres'. rewrite Hcd in Hdb'.
    split; [done|]. split; [by rewrite Hc, lookup_empty|].
    split; [|split; [|split]].
    + destruct (Hfills "completed_tasks") as [->|[Hk _]];
        [apply lookup_empty|absurd_key Hk].
    + destruct (Hfills "last_checkpoint") as [->|[Hk _]];
        [apply lookup_empty|absurd_key Hk].
    + congruence.
    + intros k Hk. by rewrite Hdb, Hdb', lookup_insert_ne.
  - intros Hfin. apply open_db_unfinished. unfold lookup_truthy.
    by rewrite Hfin.
  - intros Hfin res.
    assert (open_db (db st) = db st) as Hopen.
    { rewrite open_db_unfinished
        by (by rewrite (lookup_truthy_Some _ _ _ Hfin)).
      by apply insert_id. }
    destruct (init_spec release git_repo fs st) as (_ & Hdb & _ & Hc).
    fold res in Hdb, Hc. rewrite Hopen in Hc.
    split; [done|]. split; [done|].
    intros k v Hv Hkeep. rewrite Hdb.
    destruct (init_db_fills release git_repo (db st) k) as [->|[Hk H]].
    + by rewrite Hopen.
    + rewrite Hopen, (lookup_truthy_Some _ _ _ Hv) in H.
      destruct Hkeep; [congruence|done].
Qed.

End Opening.

Lemma C6_open_protocol_witness :
  let finished :=
    @boot Scenario.TaskRef bool
      (<["last_checkpoint":=VTask Scenario.T3]>
         (<["completed_tasks":=VList [VTask Scenario.T1; VTask Scenario.T2]]>
            (<["release":=VStr "3.9.0"]> (<["finished":=VBool true]> ∅))))
      false in
  let new := @boot Scenario.TaskRef bool ∅ false in
  let unfinished :=
    @boot Scenario.TaskRef bool
      (<["last_checkpoint":=VTask Scenario.T2]>
         (<["completed_tasks":=VList [VTask Scenario.T1]]>
            (<["finished":=VBool false]> ∅)))
      false in
  let init := __init__ (Some "3.10.1") (Some "/repo") (VTask Scenario.T1) in
  (db (snd (open_store finished)) = ∅ ∧
   completed_tasks (snd (init finished)) = VList [] ∧
   db (snd (init finished)) !! "last_checkpoint" = None ∧
   db (snd (init finished)) !! "release" = Some (VStr "3.10.1")) ∧
  db (snd (open_store new)) = <["finished":=VBool false]> ∅ ∧
  (db (snd (open_store unfinished)) = db unfinished ∧
   completed_tasks (snd (init unfinished)) = VList [VTask Scenario.T1] ∧
   db (snd (init unfinished)) !! "last_checkpoint"
     = Some (VTask Scenario.T2)).
Proof.
  intros finished new unfinished init.
  destruct (C6_open_protocol (Some "3.10.1") (Some "/repo")
              (VTask Scenario.T1) finished) as (H & _ & _).
  assert (db finished !! "finished" = Some (VBool true)) as Hfin
    by reflexivity.
  destruct (H Hfin) as (H1 & H2 & _ & H4 & _).
  destruct (C6_open_protocol (Some "3.10.1") (Some "/repo")
              (VTask Scenario.T1) new) as (_ & H' & _).
  destruct (C6_open_protocol (Some "3.10.1") (Some "/repo")
              (VTask Scenario.T1) unfinished) as (_ & _ & H'').
  assert (db unfinished !! "finished" = Some (VBool false)) as Hunf
    by reflexivity.
  destruct (H'' Hunf) as (H5 & H6 & H7).
  split; [|split].
  - split; [exact H1|]. split; [exact H2|]. split; [exact H4|reflexivity].
  - apply H'. reflexivity.
  - split; [exact H5|]. split; [exact H6|].
    apply H7; [reflexivity|]. left. reflexivity.
Defined.

(** ** The starting task *)

Section Start.

Context {TaskRef World : Type}.
Implicit Types (st : @state TaskRef World) (fs v : value TaskRef).

Lemma load_checkpoint_run st :
  load_checkpoint st =
  (inr (default VNone (db st !! "last_checkpoint")),
   State (db st) (environ st) (default VNone (db st !! "last_checkpoint"))
         (completed_tasks st) (world st) (history st)).
Proof.
  unfold load_checkpoint. rewrite bind_run. unfold db_get.
  by destruct (db st !! "last_checkpoint").
Qed.

(** C5, as the code has it. The constructor always leaves the starting
    task the caller supplied in the current-task pointer, whatever the
    store holds; it is [load_checkpoint], called by the caller after the
    construction, that sets the pointer to the checkpoint of the store
    ([None] when the store has none) and returns it. *)
Theorem C5_current_task release git_repo fs st :
  current_task (snd (__init__ release git_repo fs st)) = fs ∧
  let res := load_checkpoint st in
  let checkpointed := default VNone (db st !! "last_checkpoint") in
  fst res = inr checkpointed ∧
  current_task (snd res) = checkpointed ∧
  db (snd res) = db st.
Proof.
  split.
  - by destruct (init_spec release git_repo fs st) as (_ & _ & -> & _).
  - by rewrite load_checkpoint_run.
Qed.

End Start.

(** The script of [tasks.py] constructs the engine without a starting
    task, loads the checkpoint and falls back on [check_git]: this is where
    a run is resumed. *)
Lemma main_current_task {World : Type} (st : @state Tasks.TaskRef World) :
  fst (Tasks.main st) = inr () →
  current_task (snd (Tasks.main st)) =
    if lookup_truthy (db st) "finished" then VTask Tasks.check_git
    else if lookup_truthy (db st) "last_checkpoint"
         then default VNone (db st !! "last_checkpoint")
         else VTask Tasks.check_git.
Proof.
  unfold Tasks.main. rewrite bind_run.
  set (release := Some "3.10.1a2").
  set (repo := Some "/home/pablogsal/github/python/master").
  destruct (init_spec release repo VNone st) as (Hres & Hdb & _).
  destruct (__init__ release repo VNone st) as [[e|[]] st1]; [done|].
  simpl in Hres, Hdb. intros _.
  rewrite bind_run, load_checkpoint_run.
  assert (db st1 !! "last_checkpoint" = open_db (db st) !! "last_checkpoint")
    as Hcp.
  { rewrite Hdb.
    destruct (init_db_fills release repo (db st) "last_checkpoint")
      as [->|[Hk _]]; [done|absurd_key Hk]. }
  rewrite Hcp. unfold open_db.
  destruct (lookup_truthy (db st) "finished") eqn:Hfin.
  - by rewrite lookup_empty.
  - rewrite lookup_insert_ne by done. unfold lookup_truthy.
    destruct (db st !! "last_checkpoint") as [v|]; [|done]. simpl.
    by destruct (truthy v).
Qed.

(** C5, as the specification states it, fails on a store that holds a
    resumable checkpoint ([finished] is [False], [last_checkpoint] is [T2]): the
    engine constructed with the starting task [T1] points at [T1], not at
    the checkpoint. *)
Lemma C5_counterexample :
  let st := @boot Scenario.TaskRef bool
              (<["last_checkpoint":=VTask Scenario.T2]>
                 (<["finished":=VBool false]> ∅)) false in
  let res := __init__ (Some "3.10.1") (Some "/repo") (VTask Scenario.T1) st in
  db st !! "finished" = Some (VBool false) ∧
  db st !! "last_checkpoint" = Some (VTask Scenario.T2) ∧
  fst res = inr () ∧
  current_task (snd res) = VTask Scenario.T1 ∧
  current_task (snd res) ≠ VTask Scenario.T2.
Proof. by vm_compute. Qed.

(** ** The run loop *)

Section Run.

Context {TaskRef World : Type}.
Abbreviation store := (gmap string (value TaskRef)).
Variable task_run : TaskRef → store → World → (exn + value TaskRef) * store * World.
Variable task_next : TaskRef → store → World → (exn + value TaskRef) * store * World.
Implicit Types (st : @state TaskRef World) (t : TaskRef)
               (l : list (value TaskRef)) (ts : list TaskRef).

Abbreviation step := (FiniteStateMachine.step task_run task_next).
Abbreviation while_loop := (FiniteStateMachine.while_loop task_run task_next).
Abbreviation run := (FiniteStateMachine.run task_run task_next).
Abbreviation executes := (FiniteStateMachine.executes task_run task_next).

Lemma checkpoint_run st :
  checkpoint st =
  (inr (), State (checkpointed st) (environ st) (current_task st)
                 (completed_tasks st) (world st)
                 (history st ++ [half_checkpointed st; checkpointed st])).
Proof.
  unfold checkpoint, checkpointed, half_checkpointed.
  rewrite bind_run. simpl. rewrite bind_run. simpl. rewrite bind_run. simpl.
  unfold db_setitem, write. simpl. by rewrite <- app_assoc.
Qed.

(** One turn of the loop on a task that raises. *)
Lemma step_raise st t e d2 w2 :
  current_task st = VTask t →
  task_run t (checkpointed st) (world st) = (inl e, d2, w2) →
  step st =
  (inl e, State d2 (environ st) (current_task st) (completed_tasks st) w2
                (history st ++ [half_checkpointed st; checkpointed st; d2])).
Proof.
  intros Ht Hrun. unfold FiniteStateMachine.step.
  rewrite bind_run, checkpoint_run, bind_run. simpl. rewrite Ht.
  rewrite bind_run. unfold catch, call_run. simpl. rewrite Hrun. simpl.
  by rewrite <- app_assoc.
Qed.

(** One turn of the loop on a task that returns and names its
    successor. *)
Lemma step_return st t l v d2 w2 nxt d3 w3 :
  current_task st = VTask t →
  completed_tasks st = VList l →
  task_run t (checkpointed st) (world st) = (inr v, d2, w2) →
  task_next t d2 w2 = (inr nxt, d3, w3) →
  step st =
  (inr (), State d3 (environ st) nxt (VList (l ++ [VTask t])) w3
                 (history st
                    ++ [half_checkpointed st; checkpointed st; d2; d3])).
Proof.
  intros Ht Hl Hrun Hnext. unfold FiniteStateMachine.step.
  rewrite bind_run, checkpoint_run, bind_run. simpl. rewrite Ht.
  rewrite bind_run. unfold catch, call_run. simpl. rewrite Hrun. simpl.
  unfold append_completed. rewrite bind_run. simpl. rewrite Hl.
  rewrite bind_run. simpl. rewrite bind_run. unfold call_next. simpl.
  rewrite Hnext. simpl. by rewrite <- !app_assoc.
Qed.

(** What a turn that succeeded has done. *)
Lemma step_inv st st' :
  step st = (inr (), st') →
  ∃ t l v d2 w2 d3 w3,
    current_task st = VTask t ∧ completed_tasks st = VList l ∧
    task_run t (checkpointed st) (world st) = (inr v, d2, w2) ∧
    task_next t d2 w2 = (inr (current_task st'), d3, w3) ∧
    db st' = d3 ∧ completed_tasks st' = VList (l ++ [VTask t]).
Proof.
  intros Hstep.
  destruct (current_task st) as [| | | |t|] eqn:Ht;
    try (unfold FiniteStateMachine.step in Hstep;
         rewrite bind_run, checkpoint_run, bind_run in Hstep;
         simpl in Hstep; rewrite Ht in Hstep; discriminate).
  destruct (task_run t (checkpointed st) (world st)) as [[[e|v] d2] w2]
    eqn:Hrun.
  { rewrite (step_raise _ _ _ _ _ Ht Hrun) in Hstep. discriminate. }
  destruct (completed_tasks st) as [| | | | |l] eqn:Hl;
    try (unfold FiniteStateMachine.step in Hstep;
         rewrite bind_run, checkpoint_run, bind_run in Hstep;
         simpl in Hstep; rewrite Ht in Hstep;
         rewrite bind_run in Hstep; unfold catch, call_run in Hstep;
         simpl in Hstep; rewrite Hrun in Hstep; simpl in Hstep;
         unfold append_completed in Hstep; rewrite bind_run in Hstep;
         simpl in Hstep; rewrite Hl in Hstep; discriminate).
  destruct (task_next t d2 w2) as [[[e|nxt] d3] w3] eqn:Hnext.
  { exfalso. unfold FiniteStateMachine.step in Hstep.
    rewrite bind_run, checkpoint_run, bind_run in Hstep.
    simpl in Hstep. rewrite Ht in Hstep.
    rewrite bind_run in Hstep. unfold catch, call_run in Hstep.
    simpl in Hstep. rewrite Hrun in Hstep. simpl in Hstep.
    unfold append_completed in Hstep. rewrite bind_run in Hstep.
    simpl in Hstep. rewrite Hl in Hstep.
    rewrite bind_run in Hstep. simpl in Hstep. rewrite bind_run in Hstep.
    unfold call_next in Hstep. simpl in Hstep. rewrite Hnext in Hstep.
    discriminate. }
  rewrite (step_return _ _ _ _ _ _ _ _ _ Ht Hl Hrun Hnext) in Hstep.
  injection Hstep as <-. simpl. by exists t, l, v, d2, w2, d3, w3.
Qed.

End Run.

(** ** Chains of tasks

    The task bodies are arbitrary, except that they leave the three keys of
    the engine alone. *)

Section Chains.

Context {TaskRef World : Type}.
Abbreviation store := (gmap string (value TaskRef)).
Variable task_run : TaskRef → store → World → (exn + value TaskRef) * store * World.
Variable task_next : TaskRef → store → World → (exn + value TaskRef) * store * World.
Implicit Types (st : @state TaskRef World) (t : TaskRef)
               (l : list (value TaskRef)) (ts : list TaskRef).

Abbreviation step := (FiniteStateMachine.step task_run task_next).
Abbreviation while_loop := (FiniteStateMachine.while_loop task_run task_next).
Abbreviation run := (FiniteStateMachine.run task_run task_next).
Abbreviation executes := (FiniteStateMachine.executes task_run task_next).

Hypothesis run_keeps : ∀ t d w k,
  k ∈ engine_keys → (task_run t d w).1.2 !! k = d !! k.
Hypothesis next_keeps : ∀ t d w k,
  k ∈ engine_keys → (task_next t d w).1.2 !! k = d !! k.

Lemma checkpointed_completed st :
  checkpointed st !! "completed_tasks" = Some (completed_tasks st).
Proof.
  unfold checkpointed. rewrite lookup_insert_ne by done.
  apply lookup_insert_eq.
Qed.

Lemma checkpointed_last st :
  checkpointed st !! "last_checkpoint" = Some (current_task st).
Proof. apply lookup_insert_eq. Qed.

Lemma checkpointed_finished st :
  checkpointed st !! "finished" = db st !! "finished".
Proof. unfold checkpointed. by rewrite !lookup_insert_ne. Qed.

(** The store after a turn that succeeded. *)
Lemma step_store st st' :
  step st = (inr (), st') →
  ∃ t l, current_task st = VTask t ∧ completed_tasks st = VList l ∧
         completed_tasks st' = VList (l ++ [VTask t]) ∧
         db st' !! "completed_tasks" = Some (VList l) ∧
         db st' !! "last_checkpoint" = Some (VTask t) ∧
         db st' !! "finished" = db st !! "finished".
Proof.
  intros (t & l & v & d2 & w2 & d3 & w3 & Ht & Hl & Hrun & Hnext & Hdb & Hc)
    %step_inv.
  exists t, l. repeat (split; [done|]).
  assert (∀ k, k ∈ engine_keys → db st' !! k = checkpointed st !! k) as Hk.
  { intros k Hk. rewrite Hdb.
    pose proof (next_keeps t d2 w2 k Hk) as H3. rewrite Hnext in H3.
    pose proof (run_keeps t (checkpointed st) (world st) k Hk) as H2.
    rewrite Hrun in H2. simpl in *. congruence. }
  rewrite !Hk by in_keys.
  by rewrite checkpointed_completed, checkpointed_last,
    checkpointed_finished, Hl, Ht.
Qed.

(** The store after a turn whose task raised. *)
Lemma step_raise_store st t e d2 w2 :
  current_task st = VTask t →
  task_run t (checkpointed st) (world st) = (inl e, d2, w2) →
  d2 !! "completed_tasks" = Some (completed_tasks st) ∧
  d2 !! "last_checkpoint" = Some (VTask t) ∧
  d2 !! "finished" = db st !! "finished".
Proof.
  intros Ht Hrun.
  assert (∀ k, k ∈ engine_keys → d2 !! k = checkpointed st !! k) as Hk.
  { intros k Hk.
    pose proof (run_keeps t (checkpointed st) (world st) k Hk) as H2.
    by rewrite Hrun in H2. }
  rewrite !Hk by in_keys.
  by rewrite checkpointed_completed, checkpointed_last,
    checkpointed_finished, Ht.
Qed.

Lemma executes_snoc st ts t st' :
  executes st (ts ++ [t]) st' →
  ∃ st1, executes st ts st1 ∧ current_task st1 = VTask t ∧
         step st1 = (inr (), st').
Proof.
  revert st. induction ts as [|t' ts IH]; intros st H; simpl in H.
  - inversion H as [|? ? st1 ? ? Ht Hstep Hrest]; subst.
    inversion Hrest; subst. exists st. split; [constructor|done].
  - inversion H as [|? ? st1 ? ? Ht Hstep Hrest]; subst.
    apply IH in Hrest as (st2 & Hex & Ht2 & Hstep2).
    exists st2. split; [by econstructor|done].
Qed.

Lemma executes_completed st ts st' l0 :
  executes st ts st' → completed_tasks st = VList l0 →
  completed_tasks st' = VList (l0 ++ (VTask <$> ts)).
Proof.
  intros H. revert l0.
  induction H as [st|st t st1 ts st' Ht Hstep _ IH]; intros l0 Hl0.
  - by rewrite app_nil_r.
  - apply step_inv in Hstep
      as (t' & l & ? & ? & ? & ? & ? & Ht' & Hl & _ & _ & _ & Hc).
    assert (t' = t) as -> by congruence.
    assert (l = l0) as -> by congruence.
    rewrite (IH _ Hc). by rewrite fmap_cons, <- app_assoc.
Qed.

Lemma executes_finished st ts st' :
  executes st ts st' → db st' !! "finished" = db st !! "finished".
Proof.
  induction 1 as [st|st t st1 ts st' Ht Hstep _ IH]; [done|].
  apply step_store in Hstep as (_ & _ & _ & _ & _ & _ & _ & Hf).
  congruence.
Qed.

(** The loop follows the chain: fuel for its tasks is enough to reach the
    loop head the chain ends at. *)
Lemma while_loop_executes st ts st' fuel :
  executes st ts st' →
  while_loop (length ts + fuel) st = while_loop fuel st'.
Proof.
  induction 1 as [st|st t st1 ts st' Ht Hstep _ IH]; [done|].
  simpl. by rewrite Ht, Hstep.
Qed.

Lemma show_completed_run st l :
  completed_tasks st = VList l → forallb is_task l = true →
  show_completed st = (inr (), st).
Proof.
  intros Hl Hall. unfold show_completed. rewrite bind_run. simpl.
  by rewrite Hl, Hall.
Qed.

Lemma executes_step st t ts st'' :
  current_task st = VTask t →
  fst (step st) = inr () →
  executes (snd (step st)) ts st'' →
  executes st (t :: ts) st''.
Proof.
  intros Ht Hstep Hrest. eapply executes_cons; [done| |done].
  destruct (step st) as [r st']. simpl in Hstep. by subst.
Qed.

(** A chain that ends at a null pointer makes [run] return, with enough
    fuel for its tasks. *)
Lemma run_executes st ts st' l0 fuel :
  completed_tasks st = VList l0 → forallb is_task l0 = true →
  executes st ts st' → current_task st' = VNone →
  length ts < fuel →
  run fuel st = Some (db_setitem "finished" (VBool true) st').
Proof.
  intros Hl0 Hshow Hex Hend Hfuel. unfold FiniteStateMachine.run.
  rewrite (show_completed_run _ _ Hl0 Hshow).
  replace fuel with (length ts + S (fuel - length ts - 1)) by lia.
  rewrite (while_loop_executes _ _ _ _ Hex). simpl. by rewrite Hend.
Qed.

Lemma not_elem_of_tasks t ts : t ∉ ts → VTask t ∉ (VTask <$> ts : list (value TaskRef)).
Proof.
  intros Hts (t' & Heq & Hin)%list_elem_of_fmap_1. by injection Heq as ->.
Qed.

(** C3, as the code has it. When a chain runs to its terminal task with no
    error, [run] returns with every executed task appended, in order, to
    the engine's own [completed_tasks]; the list is written to the store
    by the checkpoint that precedes each task, not on the task's success,
    so that when [finished = True] is persisted the store's
    [completed_tasks] holds every executed task but the terminal one,
    which is the store's [last_checkpoint]. *)
Theorem C3_completed_tasks st ts t st' l0 fuel :
  completed_tasks st = VList l0 → forallb is_task l0 = true →
  executes st (ts ++ [t]) st' → current_task st' = VNone →
  length (ts ++ [t]) < fuel →
  ∃ st_f,
    run fuel st = Some (inr (), st_f) ∧
    completed_tasks st_f = VList (l0 ++ (VTask <$> (ts ++ [t]))) ∧
    db st_f !! "finished" = Some (VBool true) ∧
    db st_f !! "completed_tasks" = Some (VList (l0 ++ (VTask <$> ts))) ∧
    db st_f !! "last_checkpoint" = Some (VTask t).
Proof.
  intros Hl0 Hshow Hex Hend Hfuel.
  exists (snd (db_setitem "finished" (VBool true) st')).
  rewrite (run_executes _ _ _ _ _ Hl0 Hshow Hex Hend Hfuel). simpl.
  split; [done|]. split; [by apply (executes_completed _ _ _ _ Hex)|].
  split; [apply lookup_insert_eq|].
  apply executes_snoc in Hex as (st1 & Hex1 & Ht & Hstep).
  apply step_store in Hstep as (t' & l & Ht' & Hl & _ & Hc & Hcp & _).
  assert (t' = t) as -> by congruence.
  rewrite (executes_completed _ _ _ _ Hex1 Hl0) in Hl.
  injection Hl as <-. by rewrite !lookup_insert_ne.
Qed.

(** C4, as the code has it. When the [run()] of a task raises, [run] of
    the engine ends with that very error; the store then has the failing
    task as [last_checkpoint], as [completed_tasks] the tasks loaded at the
    start followed by the tasks this run has completed, and the flag
    [finished] as it was when the run started ([__init__] leaves it
    false).  So the failing task is absent from the persisted
    [completed_tasks] exactly when it had not completed before, in the
    loaded history or earlier in this run.  The current-task pointer still
    names the failing task. *)
Theorem C4_task_failure st0 ts st t l0 e d2 w2 fuel :
  completed_tasks st0 = VList l0 → forallb is_task l0 = true →
  executes st0 ts st → current_task st = VTask t →
  task_run t (checkpointed st) (world st) = (inl e, d2, w2) →
  length ts < fuel →
  ∃ st',
    run fuel st0 = Some (inl e, st') ∧
    db st' !! "last_checkpoint" = Some (VTask t) ∧
    db st' !! "completed_tasks" = Some (VList (l0 ++ (VTask <$> ts))) ∧
    (pending (db st') ↔ (VTask t ∉ l0) ∧ (t ∉ ts)) ∧
    db st' !! "finished" = db st0 !! "finished" ∧
    current_task st' = VTask t.
Proof.
  intros Hl0 Hshow Hex Ht Hrun Hfuel.
  eexists. unfold FiniteStateMachine.run.
  rewrite (show_completed_run _ _ Hl0 Hshow).
  replace fuel with (length ts + S (fuel - length ts - 1)) by lia.
  rewrite (while_loop_executes _ _ _ _ Hex). simpl. rewrite Ht.
  rewrite (step_raise _ _ _ _ _ _ _ Ht Hrun).
  split; [done|]. simpl.
  destruct (step_raise_store _ _ _ _ _ Ht Hrun) as (Hc & Hcp & Hf).
  rewrite (executes_completed _ _ _ _ Hex Hl0) in Hc.
  rewrite (executes_finished _ _ _ Hex) in Hf.
  repeat (split; [done|]). split; [|done].
  unfold pending. rewrite Hcp, Hc. split.
  - intros (t' & l & [= <-] & [= <-] & Hnot).
    apply not_elem_of_app in Hnot as [Hl Hts]. split; [done|].
    intros Hin. apply Hts. by apply list_elem_of_fmap_2.
  - intros [Hl Hts]. exists t, (l0 ++ (VTask <$> ts)).
    repeat (split; [done|]).
    apply not_elem_of_app. split; [done|]. by apply not_elem_of_tasks.
Qed.

(** C7, as the code has it. Take a run in which no task runs twice. The
    checkpoint that opens a turn leaves in the store a [last_checkpoint]
    that is not null and names a task the store's [completed_tasks] does
    not hold; this is still so at the loop head that follows the turn, and
    still when [finished = True] has been written after the terminal task:
    [last_checkpoint] then names the task that has just run. *)
Theorem C7_checkpoint_pending st0 ts st l0 :
  completed_tasks st0 = VList l0 →
  executes st0 ts st →
  NoDup (l0 ++ (VTask <$> ts)) →
  (∀ t, current_task st = VTask t →
        VTask t ∉ l0 ++ (VTask <$> ts) →
        checkpointed st !! "last_checkpoint" = Some (VTask t) ∧
        pending (checkpointed st)) ∧
  (∀ ts' t, ts = ts' ++ [t] →
        db st !! "last_checkpoint" = Some (VTask t) ∧
        pending (db st) ∧
        pending (db (snd (db_setitem "finished" (VBool true) st)))).
Proof.
  intros Hl0 Hex Hnodup.
  pose proof (executes_completed _ _ _ _ Hex Hl0) as Hdone. split.
  - intros t Hcur Hnew. rewrite checkpointed_last, Hcur. split; [done|].
    exists t, (l0 ++ (VTask <$> ts)).
    by rewrite checkpointed_completed, checkpointed_last, Hcur, Hdone.
  - intros ts' t ->.
    apply executes_snoc in Hex as (st1 & Hex1 & Ht & Hstep).
    apply step_store in Hstep as (t' & l & Ht' & Hl & _ & Hc & Hcp & _).
    assert (t' = t) as -> by congruence.
    rewrite (executes_completed _ _ _ _ Hex1 Hl0) in Hl.
    injection Hl as <-.
    assert (VTask t ∉ l0 ++ (VTask <$> ts')) as Hfresh.
    { rewrite fmap_app, app_assoc in Hnodup.
      apply NoDup_app in Hnodup as (_ & Hdisj & _).
      intros Hin. apply (Hdisj _ Hin), list_elem_of_here. }
    split; [done|]. split.
    + by exists t, (l0 ++ (VTask <$> ts')).
    + exists t, (l0 ++ (VTask <$> ts')). simpl.
      by rewrite !lookup_insert_ne.
Qed.

End Chains.

(** ** The chain of three tasks *)

Lemma scenario_run_keeps t d w k :
  k ∈ engine_keys → (Scenario.task_run t d w).1.2 !! k = d !! k.
Proof. intros _. by destruct t, w. Qed.

Lemma scenario_next_keeps t d w k :
  k ∈ engine_keys → (Scenario.task_next t d w).1.2 !! k = d !! k.
Proof. intros _. by destruct t. Qed.

(** The three tasks in a row, from a new engine. *)
Lemma scenario_executes :
  let st0 := Scenario.fresh (VTask Scenario.T1) false in
  let st3 := Scenario.turn (Scenario.turn (Scenario.turn st0)) in
  executes Scenario.task_run Scenario.task_next st0
    [Scenario.T1; Scenario.T2; Scenario.T3] st3 ∧
  current_task st3 = VNone.
Proof.
  intros st0 st3. split; [|by vm_compute].
  apply executes_step; [by vm_compute..|].
  apply executes_step; [by vm_compute..|].
  apply executes_step; [by vm_compute..|].
  apply executes_nil.
Qed.

Lemma scenario_run :
  let st0 := Scenario.fresh (VTask Scenario.T1) false in
  let st3 := Scenario.turn (Scenario.turn (Scenario.turn st0)) in
  run Scenario.task_run Scenario.task_next 4 st0
  = Some (db_setitem "finished" (VBool true) st3).
Proof.
  intros st0 st3. destruct scenario_executes as (Hex & Hend).
  apply (run_executes _ _ _ _ _ [] 4) in Hex; [done|by vm_compute..|simpl; lia].
Qed.

Lemma C3_completed_tasks_witness :
  ∃ st_f,
    run Scenario.task_run Scenario.task_next 4
        (Scenario.fresh (VTask Scenario.T1) false) = Some (inr (), st_f) ∧
    completed_tasks st_f
      = VList [VTask Scenario.T1; VTask Scenario.T2; VTask Scenario.T3] ∧
    db st_f !! "finished" = Some (VBool true) ∧
    db st_f !! "completed_tasks"
      = Some (VList [VTask Scenario.T1; VTask Scenario.T2]) ∧
    db st_f !! "last_checkpoint" = Some (VTask Scenario.T3).
Proof.
  destruct scenario_executes as (Hex & Hend).
  apply (C3_completed_tasks Scenario.task_run Scenario.task_next
           scenario_run_keeps scenario_next_keeps
           (Scenario.fresh (VTask Scenario.T1) false)
           [Scenario.T1; Scenario.T2] Scenario.T3
           (Scenario.turn (Scenario.turn (Scenario.turn
              (Scenario.fresh (VTask Scenario.T1) false)))) [] 4).
  - vm_compute. reflexivity.
  - reflexivity.
  - exact Hex.
  - exact Hend.
  - simpl. lia.
Defined.

(** C3, as the specification states it, fails on the chain of three
    tasks: when [finished = True] is persisted the store's [completed_tasks] is
    [[T1, T2]], not [[T1, T2, T3]]. *)
Lemma C3_counterexample :
  ∃ st_f,
    run Scenario.task_run Scenario.task_next 4
        (Scenario.fresh (VTask Scenario.T1) false) = Some (inr (), st_f) ∧
    db st_f !! "finished" = Some (VBool true) ∧
    db st_f !! "completed_tasks"
      = Some (VList [VTask Scenario.T1; VTask Scenario.T2]) ∧
    db st_f !! "completed_tasks"
      ≠ Some (VList [VTask Scenario.T1; VTask Scenario.T2; VTask Scenario.T3]).
Proof.
  eexists. split; [apply scenario_run|].
  split; [by vm_compute|].
  assert (∀ o : option (value Scenario.TaskRef),
            o = Some (VList [VTask Scenario.T1; VTask Scenario.T2]) →
            o = Some (VList [VTask Scenario.T1; VTask Scenario.T2]) ∧
            o ≠ Some (VList [VTask Scenario.T1; VTask Scenario.T2;
                             VTask Scenario.T3])) as Hne.
  { by intros o ->. }
  apply Hne. by vm_compute.
Qed.

(** The first task alone, while the second one is going to fail. *)
Lemma scenario_executes_T1 :
  let st0 := Scenario.fresh (VTask Scenario.T1) true in
  let st1 := Scenario.turn st0 in
  executes Scenario.task_run Scenario.task_next st0 [Scenario.T1] st1 ∧
  current_task st1 = VTask Scenario.T2 ∧
  Scenario.task_run Scenario.T2 (checkpointed st1) (world st1)
  = (inl (ReleaseException "T2"), checkpointed st1, true).
Proof.
  intros st0 st1. split; [|split].
  - apply executes_step; [by vm_compute..|]. apply executes_nil.
  - by vm_compute.
  - assert (world st1 = true) as -> by (by vm_compute). reflexivity.
Qed.

Lemma C4_task_failure_witness :
  let st0 := Scenario.fresh (VTask Scenario.T1) true in
  db st0 !! "finished" = Some (VBool false) ∧
  ∃ st',
    run Scenario.task_run Scenario.task_next 2 st0
      = Some (inl (ReleaseException "T2"), st') ∧
    db st' !! "last_checkpoint" = Some (VTask Scenario.T2) ∧
    db st' !! "completed_tasks" = Some (VList [VTask Scenario.T1]) ∧
    (pending (db st') ↔
       (VTask Scenario.T2 ∉ []) ∧ (Scenario.T2 ∉ [Scenario.T1])) ∧
    db st' !! "finished" = db st0 !! "finished" ∧
    current_task st' = VTask Scenario.T2.
Proof.
  intros st0. split; [vm_compute; reflexivity|].
  destruct scenario_executes_T1 as (Hex & Hcur & Hrun).
  apply (C4_task_failure Scenario.task_run Scenario.task_next
           scenario_run_keeps scenario_next_keeps
           st0 [Scenario.T1] (Scenario.turn st0) Scenario.T2 []
           (ReleaseException "T2") (checkpointed (Scenario.turn st0)) true 2).
  - vm_compute. reflexivity.
  - reflexivity.
  - exact Hex.
  - exact Hcur.
  - exact Hrun.
  - simpl. lia.
Defined.

(** C4, as the specification states it, fails on a store that a crash
    between the two writes of [checkpoint] has left.  The run of [T1] and
    [T2] goes through the store [d], in which [completed_tasks] is
    [[T1, T2]] already and [last_checkpoint] is [T2] still.  The engine
    that a new process builds on [d] and points at the checkpoint runs
    [T2] again; when [T2] now fails, the failing task is present in the
    persisted [completed_tasks]. *)
Lemma C4_counterexample :
  let st_a := Scenario.turn (Scenario.turn
                (Scenario.fresh (VTask Scenario.T1) false)) in
  let d := half_checkpointed st_a in
  let st0 := snd (load_checkpoint
                    (snd (__init__ (Some "3.10.1") (Some "/repo") VNone
                                   (boot d true)))) in
  d ∈ history (snd (checkpoint st_a)) ∧
  match run Scenario.task_run Scenario.task_next 4 st0 with
  | Some (inl e, st') =>
      e = ReleaseException "T2" ∧
      db st' !! "last_checkpoint" = Some (VTask Scenario.T2) ∧
      db st' !! "completed_tasks"
      = Some (VList [VTask Scenario.T1; VTask Scenario.T2]) ∧
      VTask Scenario.T2 ∈ [VTask Scenario.T1; VTask Scenario.T2] ∧
      db st' !! "finished" = Some (VBool false)
  | _ => False
  end.
Proof.
  intros st_a d st0. split.
  - rewrite checkpoint_run. simpl. apply elem_of_app. right.
    apply list_elem_of_here.
  - assert (∀ o : option ((exn + ()) * @state Scenario.TaskRef bool),
              match o with
              | Some (inl e, st') =>
                  e = ReleaseException "T2" ∧
                  db st' !! "last_checkpoint" = Some (VTask Scenario.T2) ∧
                  db st' !! "completed_tasks"
                  = Some (VList [VTask Scenario.T1; VTask Scenario.T2]) ∧
                  db st' !! "finished" = Some (VBool false)
              | _ => False
              end →
              match o with
              | Some (inl e, st') =>
                  e = ReleaseException "T2" ∧
                  db st' !! "last_checkpoint" = Some (VTask Scenario.T2) ∧
                  db st' !! "completed_tasks"
                  = Some (VList [VTask Scenario.T1; VTask Scenario.T2]) ∧
                  VTask Scenario.T2 ∈ [VTask Scenario.T1; VTask Scenario.T2] ∧
                  db st' !! "finished" = Some (VBool false)
              | _ => False
              end) as Hmore.
    { intros [[[e|[]] st']|]; try done. intros (? & ? & ? & ?).
      repeat (split; [done|]). split; [|done].
      apply list_elem_of_further, list_elem_of_here. }
    apply Hmore. by vm_compute.
Qed.

Ltac distinct_tasks :=
  simpl;
  repeat (apply NoDup_cons; split;
    [repeat (apply not_elem_of_cons; split; [discriminate|]);
     apply not_elem_of_nil|]);
  apply NoDup_nil; exact I.

Lemma C7_checkpoint_pending_witness :
  let st0 := Scenario.fresh (VTask Scenario.T1) false in
  let st2 := Scenario.turn (Scenario.turn st0) in
  let st3 := Scenario.turn st2 in
  (checkpointed st2 !! "last_checkpoint" = Some (VTask Scenario.T3) ∧
   pending (checkpointed st2)) ∧
  db st3 !! "last_checkpoint" = Some (VTask Scenario.T3) ∧
  pending (db st3) ∧
  pending (db (snd (db_setitem "finished" (VBool true) st3))).
Proof.
  intros st0 st2 st3. destruct scenario_executes as (Hex & _).
  assert (executes Scenario.task_run Scenario.task_next st0
            [Scenario.T1; Scenario.T2] st2) as Hex2.
  { apply executes_step; [vm_compute; reflexivity..|].
    apply executes_step; [vm_compute; reflexivity..|].
    apply executes_nil. }
  assert (completed_tasks st0 = VList []) as Hl0
    by (vm_compute; reflexivity).
  destruct (C7_checkpoint_pending Scenario.task_run Scenario.task_next
              scenario_run_keeps scenario_next_keeps
              st0 [Scenario.T1; Scenario.T2] st2 [] Hl0 Hex2)
    as (Hnext & _); [distinct_tasks|].
  destruct (C7_checkpoint_pending Scenario.task_run Scenario.task_next
              scenario_run_keeps scenario_next_keeps
              st0 [Scenario.T1; Scenario.T2; Scenario.T3] st3 [] Hl0 Hex)
    as (_ & Hhead); [distinct_tasks|].
  split.
  - apply (Hnext Scenario.T3); [vm_compute; reflexivity|].
    simpl. apply not_elem_of_cons. split; [discriminate|].
    apply not_elem_of_cons. split; [discriminate|]. apply not_elem_of_nil.
  - apply (Hhead [Scenario.T1; Scenario.T2] Scenario.T3 eq_refl).
Defined.

(** C7, as the specification states it, fails inside [checkpoint]: in
    the run of the three tasks the store passes through a point, between the two
    writes of the checkpoint that precedes [T2], where [last_checkpoint]
    is still [T1] and [completed_tasks] already holds [T1]; and when
    [finished = True] has been persisted, [last_checkpoint] is not null
    but [T3], which the engine has recorded as completed. *)
Lemma C7_counterexample :
  let st0 := Scenario.fresh (VTask Scenario.T1) false in
  let d := half_checkpointed (Scenario.turn st0) in
  ∃ st_f,
    run Scenario.task_run Scenario.task_next 4 st0 = Some (inr (), st_f) ∧
    d ∈ history st_f ∧
    d !! "last_checkpoint" = Some (VTask Scenario.T1) ∧
    d !! "completed_tasks" = Some (VList [VTask Scenario.T1]) ∧
    ¬ pending d ∧
    db st_f !! "finished" = Some (VBool true) ∧
    db st_f !! "last_checkpoint" = Some (VTask Scenario.T3) ∧
    completed_tasks st_f
      = VList [VTask Scenario.T1; VTask Scenario.T2; VTask Scenario.T3].
Proof.
  intros st0 d. eexists. split; [apply scenario_run|].
  assert (d !! "last_checkpoint" = Some (VTask Scenario.T1)) as Hcp
    by (by vm_compute).
  assert (d !! "completed_tasks" = Some (VList [VTask Scenario.T1])) as Hc
    by (by vm_compute).
  split; [|split; [done|]; split; [done|]; split].
  - simpl. apply elem_of_app. left.
    assert (∀ st : @state Scenario.TaskRef bool,
              fst (step Scenario.task_run Scenario.task_next st) = inr () →
              ∀ x, x ∈ history st ∨ x = half_checkpointed st →
                   x ∈ history (Scenario.turn st)) as Hgrow.
    { intros st Hst x Hx. unfold Scenario.turn.
      destruct (step Scenario.task_run Scenario.task_next st) as [r st']
        eqn:Hstep.
      simpl in Hst |- *. subst r. pose proof Hstep as Hinv.
      apply step_inv in Hinv
        as (t & l & v & d2 & w2 & d3 & w3 & Ht & Hl & Hrun & Hnext & _).
      rewrite (step_return _ _ _ _ _ _ _ _ _ _ _ Ht Hl Hrun Hnext) in Hstep.
      injection Hstep as <-. simpl.
      apply elem_of_app. destruct Hx as [Hx| ->]; [by left|].
      right. apply list_elem_of_here. }
    apply Hgrow; [by vm_compute|]. left.
    apply Hgrow; [by vm_compute|]. by right.
  - intros (t & l & Hcp' & Hc' & Hnotin).
    rewrite Hcp in Hcp'. rewrite Hc in Hc'.
    injection Hcp' as <-. injection Hc' as <-.
    apply Hnotin, list_elem_of_here.
  - by vm_compute.
Qed.

(** Scenario C of the specification: [T2] raises; the engine built again
    on the same store and pointed at the checkpoint runs [T2] and [T3];
    the engine ends with [[T1, T2, T3]], the store with [[T1, T2]] and
    [finished = True]. *)
Lemma scenario_resume :
  match Scenario.resume with
  | Some (inr _, st) =>
      completed_tasks st
        = VList [VTask Scenario.T1; VTask Scenario.T2; VTask Scenario.T3] ∧
      db st !! "completed_tasks"
        = Some (VList [VTask Scenario.T1; VTask Scenario.T2]) ∧
      db st !! "finished" = Some (VBool true)
  | _ => False
  end.
Proof. by vm_compute. Qed.

(** ** The tasks that check for a tool *)

Section ToolChecks.

Context {World : Type}.
Variable shutil_which : string → World → option string.
Variable external :
  Tasks.TaskRef → gmap string (value Tasks.TaskRef) → World →
  (exn + value Tasks.TaskRef) * gmap string (value Tasks.TaskRef) * World.
Implicit Types (st : @state Tasks.TaskRef World)
               (l : list (value Tasks.TaskRef)).

Abbreviation task_run := (Tasks.task_run shutil_which external).
Abbreviation task_next := (@Tasks.task_next World).
Abbreviation which := (Tasks.which shutil_which).

(** One turn of the loop on a tool check. *)
Lemma tool_check_step st t l :
  t ∈ Tasks.tool_checks →
  current_task st = VTask t → completed_tasks st = VList l →
  step task_run task_next st =
  (inr (),
   State (checkpointed st) (environ st) (Tasks.next t)
         (VList (l ++ [VTask t])) (world st)
         (history st ++ [half_checkpointed st; checkpointed st;
                         checkpointed st; checkpointed st])).
Proof.
  intros Ht Hcur Hl. unfold Tasks.tool_checks in Ht.
  repeat (apply elem_of_cons in Ht as [->|Ht]);
    [..|by apply elem_of_nil in Ht];
    by erewrite step_return.
Qed.

(** C10. The four tool checks never raise, and return what
    [shutil.which] returns for their tool: the path where it finds the
    tool, [None] where it finds none; they touch neither the store nor the
    world.  Whatever the lookup returns, the missing tool's [None]
    included, a turn of the engine's loop on one of them succeeds, appends
    the task to [completed_tasks] and moves the pointer to its successor,
    which is a task; so the loop started at [check_git] runs the four
    checks and stands at [check_gpg_keys]. *)
Theorem C10_tool_checks st l :
  completed_tasks st = VList l →
  current_task st = VTask Tasks.check_git →
  (∀ t cmd,
     (t, cmd) ∈ [(Tasks.check_git, "git"); (Tasks.check_make, "make");
                 (Tasks.check_blurb, "blurb");
                 (Tasks.check_autoconf, "autoconf")] →
     ∀ d w,
       (∀ path, shutil_which cmd w = Some path →
                task_run t d w = (inr (VStr path), d, w)) ∧
       (shutil_which cmd w = None → task_run t d w = (inr VNone, d, w))) ∧
  (∀ st1 t l1,
     t ∈ Tasks.tool_checks →
     current_task st1 = VTask t → completed_tasks st1 = VList l1 →
     ∃ st2, step task_run task_next st1 = (inr (), st2) ∧
            completed_tasks st2 = VList (l1 ++ [VTask t]) ∧
            current_task st2 = Tasks.next t ∧
            is_task (Tasks.next t) = true) ∧
  ∃ st',
    executes task_run task_next st
      [Tasks.check_git; Tasks.check_make; Tasks.check_blurb;
       Tasks.check_autoconf] st' ∧
    current_task st' = VTask Tasks.check_gpg_keys ∧
    completed_tasks st'
      = VList (l ++ [VTask Tasks.check_git; VTask Tasks.check_make;
                     VTask Tasks.check_blurb; VTask Tasks.check_autoconf]) ∧
    world st' = world st.
Proof.
  intros Hl Hcur. split; [|split].
  - intros t cmd Hin d w.
    repeat (apply elem_of_cons in Hin as [[= -> ->]|Hin]);
      [..|by apply elem_of_nil in Hin];
      (split; [intros path Hpath|intros Hnone]); simpl;
      unfold Tasks.which; by rewrite ?Hpath, ?Hnone.
  - intros st1 t l1 Ht Hcur1 Hl1. eexists.
    split; [by apply tool_check_step|]. simpl. do 2 (split; [done|]).
    unfold Tasks.tool_checks in Ht.
    repeat (apply elem_of_cons in Ht as [->|Ht]);
      [..|by apply elem_of_nil in Ht]; done.
  - eexists. split.
    + do 4 (eapply executes_cons;
        [first [exact Hcur|reflexivity]
        |apply tool_check_step;
           [|first [exact Hcur|reflexivity]|first [exact Hl|reflexivity]];
           in_tools
        |]).
      apply executes_nil.
    + simpl. split; [done|]. split; [|done].
      by rewrite <- !app_assoc.
Qed.

End ToolChecks.

(** With [git] installed and none of the other tools. *)
Lemma C10_tool_checks_witness :
  let only_git : string → unit → option string :=
    λ cmd _, if String.eqb cmd "git" then Some "/usr/bin/git" else None in
  let external := λ (t : Tasks.TaskRef) (d : gmap string (value Tasks.TaskRef))
                    (w : unit),
                    (inl (OtherException "external") : exn + value Tasks.TaskRef,
                     d, w) in
  let st := snd (Tasks.main (@boot Tasks.TaskRef unit ∅ ())) in
  Tasks.task_run only_git external Tasks.check_git (db st) ()
  = (inr (VStr "/usr/bin/git"), db st, ()) ∧
  Tasks.task_run only_git external Tasks.check_make (db st) ()
  = (inr VNone, db st, ()) ∧
  ∃ st',
    executes (Tasks.task_run only_git external) Tasks.task_next st
      [Tasks.check_git; Tasks.check_make; Tasks.check_blurb;
       Tasks.check_autoconf] st' ∧
    current_task st' = VTask Tasks.check_gpg_keys.
Proof.
  intros only_git external st.
  destruct (C10_tool_checks only_git external st []) as (H1 & _ & H).
  - reflexivity.
  - reflexivity.
  - split; [|split].
    + apply (H1 Tasks.check_git "git"); [apply list_elem_of_here|reflexivity].
    + apply (H1 Tasks.check_make "make");
        [apply list_elem_of_further, list_elem_of_here|reflexivity].
    + destruct H as (st' & Hex & Hcur & _). exists st'.
      split; [exact Hex|exact Hcur].
Defined.

(** * Further properties of the constructor *)

(** X1. [RELEASE_REGEXP.match] accepts a string exactly when the string
    starts with three numeric tokens separated by dots; what follows the
    third token is free. *)
Theorem X1_release_regexp_accepts s :
  is_Some (Re.match_ RELEASE_REGEXP s) ↔ well_formed s.
Proof.
  split; [|apply well_formed_match].
  intros [mo Hmo]. by apply release_regexp_well_formed in Hmo.
Qed.

Lemma no_match_malformed s :
  Re.match_ RELEASE_REGEXP s = None → malformed s.
Proof. intros Hm [mo Hmo]%well_formed_match. congruence. Qed.

Section ConstructorResults.

Context {TaskRef World : Type}.
Implicit Types (st : @state TaskRef World) (fs v : value TaskRef)
               (d : gmap string (value TaskRef)).

(** X2. The construction of the engine with a release string succeeds
    exactly when the string is well formed, the opened store holds no
    [gpg_key] that [os.environ] refuses (a truthy value that is not a
    string, or a string that holds NUL), and a [git_repo] is given or
    already in the store. *)
Theorem X2_init_succeeds_iff s git_repo fs st :
  fst (__init__ (Some s) git_repo fs st) = inr () ↔
  well_formed s ∧
  gpg_exportable (db (snd (open_store st))) = true ∧
  (is_Some git_repo ∨
   lookup_truthy (db (snd (open_store st))) "git_repo" = true).
Proof.
  rewrite db_open_store.
  destruct (init_spec (Some s) git_repo fs st) as (-> & _).
  unfold init_result, configure_result, release_result.
  assert (is_Some (Re.match_ RELEASE_REGEXP s) ↔ well_formed s) as Hwf.
  { split; [|apply well_formed_match].
    intros [mo Hmo]. by apply release_regexp_well_formed in Hmo. }
  rewrite <- Hwf. split.
  - intros H. destruct (gpg_exportable _); [|done].
    destruct (Re.match_ RELEASE_REGEXP s) as [mo|] eqn:Hm;
      [|by destruct git_repo, (lookup_truthy _ _)].
    split; [by eauto|]. split; [done|].
    destruct git_repo as [p|]; [left; by eauto|]. right.
    by destruct (lookup_truthy _ _).
  - intros ([mo Hm] & -> & Hg). rewrite Hm.
    destruct Hg as [[p ->]| ->]; [done|]. by destruct git_repo.
Qed.

(** X3. When the construction of the engine raises, the error is a
    [TypeError] (no path and none in the store, no release string, or a
    [gpg_key] that is not a string), the [ValueError] with which
    [os.environ] refuses a stored [gpg_key] that holds NUL, or the
    [AttributeError] of a malformed release string: the [ValueError] that
    [__init__] has for an invalid release is never raised. *)
Theorem X3_init_errors release git_repo fs st e :
  fst (__init__ release git_repo fs st) = inl e →
  (e = TypeError ∨
   (e = ValueError "embedded null byte" ∧
    ∃ key, db (snd (open_store st)) !! "gpg_key" = Some (VStr key) ∧
           has_nul key = true) ∨
   e = AttributeError ∧ ∃ s, release = Some s ∧ malformed s) ∧
  e ≠ ValueError "Invalid release string".
Proof.
  rewrite db_open_store.
  destruct (init_spec release git_repo fs st) as (-> & _).
  unfold init_result, configure_result, release_result.
  intros He.
  assert (e = TypeError ∨
          (e = ValueError "embedded null byte" ∧
           ∃ key, open_db (db st) !! "gpg_key" = Some (VStr key) ∧
                  has_nul key = true) ∨
          e = AttributeError ∧ ∃ s, release = Some s ∧ malformed s) as Hkind.
  { destruct (gpg_exportable _) eqn:Hgpg.
    - assert (match release with
              | Some s0 =>
                  match Re.match_ RELEASE_REGEXP s0 with
                  | Some _ => inr ()
                  | None => inl AttributeError
                  end
              | None => inl TypeError
              end = inl e →
              e = TypeError ∨
              e = AttributeError ∧ ∃ s, release = Some s ∧ malformed s)
        as Hrel.
      { destruct release as [s|]; [|left; congruence].
        destruct (Re.match_ RELEASE_REGEXP s) as [mo|] eqn:Hm; [done|].
        intros [= <-]. right. split; [done|]. exists s.
        split; [done|]. by apply no_match_malformed. }
      assert (e = TypeError ∨
              e = AttributeError ∧ ∃ s, release = Some s ∧ malformed s)
        as [?|?]; [|by left|by right; right].
      destruct git_repo as [p|]; [by apply Hrel|].
      destruct (lookup_truthy _ _); [by apply Hrel|]. left. congruence.
    - injection He as <-. unfold gpg_exportable in Hgpg.
      unfold gpg_export_error.
      destruct (open_db (db st) !! "gpg_key") as [[| |key| | |]|];
        try (by left).
      right. left. split; [done|]. exists key. split; [done|].
      by destruct (has_nul key). }
  split; [done|]. intros ->.
  destruct Hkind as [?|[[? _]|[? _]]]; discriminate.
Qed.

(** X4. After a construction that succeeded the store holds a value under
    each of [git_repo], [release], [normalized_release] and
    [release_branch], so that the tasks can read them, and its flag
    [finished] is not set. *)
Theorem X4_init_postcondition release git_repo fs st :
  fst (__init__ release git_repo fs st) = inr () →
  let st' := snd (__init__ release git_repo fs st) in
  (∀ k, k ∈ seeded_keys → ∃ v, db st' !! k = Some v ∧ truthy v = true) ∧
  lookup_truthy (db st') "finished" = false.
Proof.
  intros Hres st'. split; [|apply init_unfinished].
  intros k Hk. pose proof (init_seeds release git_repo fs st k Hres Hk) as H.
  fold st' in H. unfold lookup_truthy in H.
  destruct (db st' !! k) as [v|]; [by exists v|done].
Qed.

(** X5. Constructing the engine a second time on the store a successful
    construction left, with whatever release, path and starting task,
    changes none of the four seeded keys. *)
Theorem X5_init_twice release git_repo fs release' git_repo' fs' st k :
  fst (__init__ release git_repo fs st) = inr () →
  k ∈ seeded_keys →
  let st1 := snd (__init__ release git_repo fs st) in
  db (snd (__init__ release' git_repo' fs' st1)) !! k = db st1 !! k.
Proof. apply init_again. Qed.

(** X6. Whatever release string the construction accepts, with or without
    a suffix, a release branch that the opened store does not hold yet is
    seeded as [master]. *)
Theorem X6_release_branch_seeded s git_repo fs st :
  fst (__init__ (Some s) git_repo fs st) = inr () →
  lookup_truthy (db (snd (open_store st))) "release_branch" = false →
  db (snd (__init__ (Some s) git_repo fs st)) !! "release_branch"
    = Some (VStr "master").
Proof. apply release_branch_master. Qed.

End ConstructorResults.

Lemma X3_init_errors_witness :
  let st := @boot Tasks.TaskRef unit
              (<["gpg_key":=VStr (String zero "4AEE18F83AFDEB23")]> ∅) () in
  let e := ValueError "embedded null byte" in
  (e = TypeError ∨
   (e = ValueError "embedded null byte" ∧
    ∃ key, db (snd (open_store st)) !! "gpg_key" = Some (VStr key) ∧
           has_nul key = true) ∨
   e = AttributeError ∧ ∃ s, Some "3.10.1" = Some s ∧ malformed s) ∧
  e ≠ ValueError "Invalid release string".
Proof.
  intros st.
  apply (X3_init_errors (Some "3.10.1") (Some "/repo") VNone st).
  vm_compute. reflexivity.
Defined.

Lemma X4_init_postcondition_witness :
  let st' := snd (__init__ (Some "3.10.1") (Some "/repo") VNone
                           (@boot Tasks.TaskRef unit ∅ ())) in
  (∀ k, k ∈ seeded_keys → ∃ v, db st' !! k = Some v ∧ truthy v = true) ∧
  lookup_truthy (db st') "finished" = false.
Proof.
  apply (X4_init_postcondition (Some "3.10.1") (Some "/repo") VNone
           (@boot Tasks.TaskRef unit ∅ ())).
  vm_compute. reflexivity.
Defined.

Lemma X5_init_twice_witness :
  let st1 := snd (__init__ (Some "3.10.1") (Some "/repo") VNone
                           (@boot Tasks.TaskRef unit ∅ ())) in
  db (snd (__init__ (Some "3.11.0") (Some "/elsewhere") VNone st1))
    !! "release" = db st1 !! "release".
Proof.
  apply (X5_init_twice (Some "3.10.1") (Some "/repo") VNone
           (Some "3.11.0") (Some "/elsewhere") VNone
           (@boot Tasks.TaskRef unit ∅ ()) "release").
  - vm_compute. reflexivity.
  - in_keys.
Defined.

Lemma X6_release_branch_seeded_witness :
  db (snd (__init__ (Some "3.9.0") (Some "/repo") VNone
                    (@boot Tasks.TaskRef unit ∅ ()))) !! "release_branch"
    = Some (VStr "master").
Proof.
  apply (X6_release_branch_seeded "3.9.0" (Some "/repo") VNone
           (@boot Tasks.TaskRef unit ∅ ())); vm_compute; reflexivity.
Defined.

(** ** The environment and the checkpoint across two processes *)

Section Restart.

Context {TaskRef World : Type}.
Implicit Types (st : @state TaskRef World) (fs v : value TaskRef)
               (d : gmap string (value TaskRef)).

Lemma export_gpg_key_environ st :
  environ (snd (export_gpg_key st)) =
  match db st !! "gpg_key" with
  | Some (VStr (String a key)) =>
      if has_nul (String a key) then environ st
      else <["GPG_KEY_FOR_RELEASE":=String a key]> (environ st)
  | _ => environ st
  end.
Proof.
  unfold export_gpg_key. rewrite bind_run. unfold db_get, db_getitem. simpl.
  destruct (db st !! "gpg_key") as [v|] eqn:Hv; simpl; [|done].
  destruct (truthy v) eqn:Ht; [|by destruct v as [| |[|]| | |]].
  rewrite bind_run, Hv. destruct v as [| |[|a key]| | |]; try done.
  unfold environ_setitem. simpl. by destruct (_ || _).
Qed.

Lemma seed_git_repo_environ git_repo st :
  environ (snd (seed_git_repo git_repo st)) = environ st.
Proof.
  unfold seed_git_repo. rewrite bind_run. unfold db_get. simpl.
  destruct (db st !! "git_repo") as [v|]; simpl;
    [destruct (truthy v); simpl|]; by destruct git_repo.
Qed.

Lemma seed_state_environ k v st : environ (seed_state k v st) = environ st.
Proof. unfold seed_state. by destruct (lookup_truthy _ _). Qed.

Lemma seed_release_environ release st :
  environ (snd (seed_release release st)) = environ st.
Proof.
  destruct release as [s|]; [|done].
  destruct (Re.match_ RELEASE_REGEXP s) as [mo|] eqn:Hm.
  - rewrite (seed_release_match _ _ _ Hm). simpl.
    by rewrite !seed_state_environ.
  - unfold seed_release, release_match, match_group.
    rewrite bind_run. unfold ret at 1. by rewrite Hm.
Qed.

Lemma init_environ release git_repo fs st :
  environ (snd (__init__ release git_repo fs st)) =
  match open_db (db st) !! "gpg_key" with
  | Some (VStr (String a key)) =>
      if has_nul (String a key) then environ st
      else <["GPG_KEY_FOR_RELEASE":=String a key]> (environ st)
  | _ => environ st
  end.
Proof.
  unfold __init__.
  rewrite bind_run, open_store_run.
  rewrite bind_run, init_attributes_run.
  set (st2 := State _ _ _ _ _ _).
  rewrite bind_run.
  pose proof (export_gpg_key_environ st2) as He.
  destruct (export_gpg_key_spec st2) as (_ & Hd & _).
  destruct (export_gpg_key st2) as [[e|[]] st3]; simpl in *; [done|].
  rewrite bind_run.
  pose proof (seed_git_repo_environ git_repo st3) as Hg.
  destruct (seed_git_repo git_repo st3) as [[e|[]] st4]; simpl in *;
    [congruence|].
  rewrite seed_release_environ. congruence.
Qed.

(** X7. When the store that [__init__] opens holds a GPG key, a string
    that is not empty, the construction puts it in the environment
    variable [GPG_KEY_FOR_RELEASE], whether or not it then succeeds, and
    touches no other variable; unless the key holds NUL, which
    [os.environ] refuses: the construction then raises [ValueError] and
    leaves the environment as it was. *)
Theorem X7_gpg_key_exported release git_repo fs st key :
  db (snd (open_store st)) !! "gpg_key" = Some (VStr key) → key ≠ "" →
  let res := __init__ release git_repo fs st in
  if has_nul key
  then fst res = inl (ValueError "embedded null byte") ∧
       environ (snd res) = environ st
  else environ (snd res) !! "GPG_KEY_FOR_RELEASE" = Some key ∧
       ∀ var, var ≠ "GPG_KEY_FOR_RELEASE" →
              environ (snd res) !! var = environ st !! var.
Proof.
  rewrite db_open_store. intros Hkey Hne res. unfold res.
  rewrite init_environ, Hkey. destruct key as [|a key]; [done|].
  destruct (has_nul (String a key)) eqn:Hnul.
  - split; [|done].
    destruct (init_spec release git_repo fs st) as (-> & _).
    unfold init_result, configure_result, gpg_exportable, gpg_export_error.
    by rewrite Hkey, Hnul.
  - split; [apply lookup_insert_eq|]. intros var Hvar.
    by rewrite lookup_insert_ne.
Qed.

(** The pointer and the history that a new process finds in the store
    [d] of an unfinished run. *)
Lemma resume_from_store d release git_repo fs (w : World) :
  lookup_truthy d "finished" = false →
  let st2 := snd (load_checkpoint
                    (snd (__init__ release git_repo fs (boot d w)))) in
  current_task st2 = default VNone (d !! "last_checkpoint") ∧
  completed_tasks st2 = default (VList []) (d !! "completed_tasks").
Proof.
  intros Hfin st2. unfold st2. rewrite load_checkpoint_run. simpl.
  destruct (init_spec release git_repo fs (boot d w)) as (_ & Hdb & _ & Hc).
  simpl in Hdb, Hc. rewrite Hc, Hdb.
  rewrite open_db_unfinished by done.
  rewrite lookup_insert_ne by done. split; [|done].
  destruct (init_db_fills release git_repo d "last_checkpoint")
    as [->|[Hk _]]; [|absurd_key Hk].
  rewrite open_db_unfinished by done. by rewrite lookup_insert_ne.
Qed.


End Restart.

Lemma X7_gpg_key_exported_witness :
  let st := @boot Tasks.TaskRef unit
              (<["gpg_key":=VStr "4AEE18F83AFDEB23"]>
                 (<["finished":=VBool false]> ∅)) () in
  let res := __init__ (Some "3.10.1") (Some "/repo") VNone st in
  if has_nul "4AEE18F83AFDEB23"
  then fst res = inl (ValueError "embedded null byte") ∧
       environ (snd res) = environ st
  else environ (snd res) !! "GPG_KEY_FOR_RELEASE" = Some "4AEE18F83AFDEB23" ∧
       ∀ var, var ≠ "GPG_KEY_FOR_RELEASE" →
              environ (snd res) !! var = environ st !! var.
Proof.
  intros st.
  apply (X7_gpg_key_exported (Some "3.10.1") (Some "/repo") VNone st
           "4AEE18F83AFDEB23").
  - vm_compute. reflexivity.
  - discriminate.
Defined.


(** * Further properties of the run loop *)

Section RunResults.

Context {TaskRef World : Type}.
Abbreviation store := (gmap string (value TaskRef)).
Variable task_run : TaskRef → store → World → (exn + value TaskRef) * store * World.
Variable task_next : TaskRef → store → World → (exn + value TaskRef) * store * World.
Implicit Types (st : @state TaskRef World) (t : TaskRef)
               (l : list (value TaskRef)) (ts : list TaskRef).

Abbreviation step := (FiniteStateMachine.step task_run task_next).
Abbreviation while_loop := (FiniteStateMachine.while_loop task_run task_next).
Abbreviation run := (FiniteStateMachine.run task_run task_next).
Abbreviation executes := (FiniteStateMachine.executes task_run task_next).

Lemma run_returned fuel st st_f :
  run fuel st = Some (inr (), st_f) →
  db st_f !! "finished" = Some (VBool true).
Proof.
  unfold FiniteStateMachine.run.
  destruct (show_completed st) as [[e|[]] st1]; [done|].
  destruct (while_loop fuel st1) as [[[e|[]] st2]|]; [done| |done].
  intros [= <-]. apply lookup_insert_eq.
Qed.

(** X9. Once [run] has returned, the store is finished, and the next
    engine constructed on it starts from an empty store: it has no
    completed tasks, and the store has lost its checkpoint and its history
    of completed tasks. *)
Theorem X9_completed_run_starts_afresh fuel st st_f release git_repo fs
    (w : World) :
  run fuel st = Some (inr (), st_f) →
  let st2 := snd (__init__ release git_repo fs (boot (db st_f) w)) in
  db st_f !! "finished" = Some (VBool true) ∧
  db (snd (open_store (boot (db st_f) w))) = ∅ ∧
  completed_tasks st2 = VList [] ∧
  db st2 !! "last_checkpoint" = None ∧
  db st2 !! "completed_tasks" = None.
Proof.
  intros Hfin%run_returned st2. split; [done|].
  assert (open_db (db st_f) = ∅) as Hopen.
  { apply open_db_finished. by rewrite (lookup_truthy_Some _ _ _ Hfin). }
  rewrite db_open_store. simpl. split; [done|].
  destruct (init_spec release git_repo fs (boot (db st_f) w))
    as (_ & Hdb & _ & Hc).
  fold st2 in Hdb, Hc. simpl in Hdb, Hc. rewrite Hopen in Hc.
  split; [by rewrite Hc, lookup_empty|].
  pose proof (init_db_fills release git_repo (db st_f)) as Hfills.
  rewrite <- Hdb, Hopen in Hfills.
  split.
  - destruct (Hfills "last_checkpoint") as [->|[Hk _]];
      [apply lookup_empty|absurd_key Hk].
  - destruct (Hfills "completed_tasks") as [->|[Hk _]];
      [apply lookup_empty|absurd_key Hk].
Qed.

(** X10. An engine whose current task is null runs no task: [run] returns
    at once, and all it does is to write [finished = True]. *)
Theorem X10_run_without_task st l fuel :
  current_task st = VNone →
  completed_tasks st = VList l → forallb is_task l = true →
  0 < fuel →
  run fuel st = Some (inr (), write (<["finished":=VBool true]> (db st)) st).
Proof.
  intros Hcur Hl Hshow Hfuel.
  rewrite (run_executes _ _ st [] st l fuel); try done. constructor.
Qed.

(** X11. When the engine's history of completed tasks cannot be shown
    (it is not a list, or holds something that is not a task), [run]
    raises before it touches the store or runs a task. *)
Theorem X11_run_history_unreadable st fuel :
  match completed_tasks st with
  | VList l => forallb is_task l = false
  | VStr s => s ≠ ""
  | _ => True
  end →
  ∃ e, run fuel st = Some (inl e, st) ∧
       (e = TypeError ∨ e = AttributeError).
Proof.
  intros H. unfold FiniteStateMachine.run, show_completed.
  rewrite bind_run. simpl.
  destruct (completed_tasks st) as [| |[|]| | |l]; simpl;
    try (by eexists; split; [done|by left]).
  - eexists; split; [done|by right].
  - rewrite H. eexists; split; [done|by right].
Qed.

(** X12. When the current task is not a task class (and not null), [run]
    raises [TypeError]; by then the checkpoint has been written, so that
    the store names the thing as [last_checkpoint], and no task has run. *)
Theorem X12_run_pointer_not_callable st l fuel :
  completed_tasks st = VList l → forallb is_task l = true →
  current_task st ≠ VNone → is_task (current_task st) = false →
  0 < fuel →
  ∃ st', run fuel st = Some (inl TypeError, st') ∧
         db st' = checkpointed st ∧
         db st' !! "last_checkpoint" = Some (current_task st) ∧
         world st' = world st ∧
         completed_tasks st' = VList l.
Proof.
  intros Hl Hshow Hnone Htask Hfuel. unfold FiniteStateMachine.run.
  rewrite (show_completed_run _ _ Hl Hshow).
  destruct fuel as [|fuel]; [lia|]. simpl.
  assert (step st =
          (inl TypeError,
           State (checkpointed st) (environ st) (current_task st)
                 (completed_tasks st) (world st)
                 (history st ++ [half_checkpointed st; checkpointed st])))
    as Hstep.
  { unfold FiniteStateMachine.step.
    rewrite bind_run, checkpoint_run, bind_run. simpl.
    by destruct (current_task st). }
  exists (State (checkpointed st) (environ st) (current_task st)
                (completed_tasks st) (world st)
                (history st ++ [half_checkpointed st; checkpointed st])).
  split.
  - rewrite Hstep.
    destruct (current_task st) eqn:Hcur; try done.
  - simpl. split; [done|]. split; [apply lookup_insert_eq|]. by split.
Qed.

(** X13. When [next()] raises after [run()] has returned, the error leaves
    [run] of the engine; the task has been appended to the engine's
    completed tasks already, while the pointer still names it. *)
Theorem X13_next_raises st t l v d2 w2 e d3 w3 fuel :
  completed_tasks st = VList l → forallb is_task l = true →
  current_task st = VTask t →
  task_run t (checkpointed st) (world st) = (inr v, d2, w2) →
  task_next t d2 w2 = (inl e, d3, w3) →
  0 < fuel →
  ∃ st', run fuel st = Some (inl e, st') ∧
         completed_tasks st' = VList (l ++ [VTask t]) ∧
         current_task st' = VTask t ∧
         db st' = d3 ∧ world st' = w3.
Proof.
  intros Hl Hshow Hcur Hrun Hnext Hfuel. unfold FiniteStateMachine.run.
  rewrite (show_completed_run _ _ Hl Hshow).
  destruct fuel as [|fuel]; [lia|]. simpl. rewrite Hcur.
  assert (∃ h, step st =
          (inl e, State d3 (environ st) (VTask t) (VList (l ++ [VTask t]))
                        w3 h)) as [h Hstep].
  { unfold FiniteStateMachine.step.
    rewrite bind_run, checkpoint_run, bind_run. simpl. rewrite Hcur.
    rewrite bind_run. unfold catch, call_run. simpl. rewrite Hrun. simpl.
    unfold append_completed. rewrite bind_run. simpl. rewrite Hl.
    rewrite bind_run. simpl. rewrite bind_run. unfold call_next. simpl.
    rewrite Hnext. simpl. by eexists. }
  rewrite Hstep. by eexists.
Qed.

Hypothesis run_keeps : ∀ t d w k,
  k ∈ engine_keys → (task_run t d w).1.2 !! k = d !! k.
Hypothesis next_keeps : ∀ t d w k,
  k ∈ engine_keys → (task_next t d w).1.2 !! k = d !! k.

(** X14. Running again after a failure: when a task raises, the engine
    that a new process constructs on the store the run left, and points at
    the checkpoint, has the failing task as current task and the tasks
    completed before it as completed tasks, so that the rerun starts with
    the failing task. *)
Theorem X14_rerun_resumes st0 ts st t l0 e d2 w2 fuel release git_repo
    (w : World) :
  completed_tasks st0 = VList l0 → forallb is_task l0 = true →
  lookup_truthy (db st0) "finished" = false →
  executes st0 ts st → current_task st = VTask t →
  task_run t (checkpointed st) (world st) = (inl e, d2, w2) →
  length ts < fuel →
  ∃ st',
    run fuel st0 = Some (inl e, st') ∧
    let st2 := snd (load_checkpoint
                      (snd (__init__ release git_repo VNone
                                     (boot (db st') w)))) in
    current_task st2 = VTask t ∧
    completed_tasks st2 = VList (l0 ++ (VTask <$> ts)).
Proof.
  intros Hl0 Hshow Hfin Hex Ht Hrun Hfuel.
  eexists. unfold FiniteStateMachine.run.
  rewrite (show_completed_run _ _ Hl0 Hshow).
  replace fuel with (length ts + S (fuel - length ts - 1)) by lia.
  rewrite (while_loop_executes task_run task_next _ _ _ _ Hex). simpl.
  rewrite Ht.
  rewrite (step_raise _ _ _ _ _ _ _ Ht Hrun).
  split; [done|]. cbv zeta. simpl db.
  destruct (step_raise_store _ run_keeps _ _ _ _ _ Ht Hrun)
    as (Hc & Hcp & Hf).
  rewrite (executes_completed _ _ _ _ _ _ Hex Hl0) in Hc.
  rewrite (executes_finished _ _ run_keeps next_keeps _ _ _ Hex) in Hf.
  destruct (resume_from_store d2 release git_repo VNone w) as (H1 & H2).
  { unfold lookup_truthy in *. by rewrite Hf. }
  split; [etrans; [exact H1|by rewrite Hcp]|etrans; [exact H2|by rewrite Hc]].
Qed.

End RunResults.

Lemma X9_completed_run_starts_afresh_witness :
  let st0 := Scenario.fresh (VTask Scenario.T1) false in
  let st_f := snd (db_setitem "finished" (VBool true)
                     (Scenario.turn (Scenario.turn (Scenario.turn st0)))) in
  let st2 := snd (__init__ (Some "3.10.2") (Some "/repo")
                           (VTask Scenario.T1) (boot (db st_f) false)) in
  db st_f !! "finished" = Some (VBool true) ∧
  db (snd (open_store (boot (db st_f) false))) = ∅ ∧
  completed_tasks st2 = VList [] ∧
  db st2 !! "last_checkpoint" = None ∧
  db st2 !! "completed_tasks" = None.
Proof.
  intros st0 st_f.
  apply (X9_completed_run_starts_afresh Scenario.task_run Scenario.task_next
           4 st0 st_f (Some "3.10.2") (Some "/repo") (VTask Scenario.T1)
           false).
  etrans; [apply scenario_run|reflexivity].
Defined.

Lemma X10_run_without_task_witness :
  let st := Scenario.fresh VNone false in
  run Scenario.task_run Scenario.task_next 1 st
  = Some (inr (), write (<["finished":=VBool true]> (db st)) st).
Proof.
  intros st.
  apply (X10_run_without_task Scenario.task_run Scenario.task_next st [] 1).
  - vm_compute. reflexivity.
  - vm_compute. reflexivity.
  - reflexivity.
  - lia.
Defined.

Lemma X11_run_history_unreadable_witness :
  let st := State (<["finished":=VBool false]> ∅) ∅ (VTask Scenario.T1)
                  (VList [VStr "T1"]) false [] in
  ∃ e, run Scenario.task_run Scenario.task_next 4 st = Some (inl e, st) ∧
       (e = TypeError ∨ e = AttributeError).
Proof.
  intros st.
  apply (X11_run_history_unreadable Scenario.task_run Scenario.task_next st 4).
  reflexivity.
Defined.

Lemma X12_run_pointer_not_callable_witness :
  let st := Scenario.fresh (VStr "check_git") false in
  ∃ st', run Scenario.task_run Scenario.task_next 4 st
         = Some (inl TypeError, st') ∧
         db st' = checkpointed st ∧
         db st' !! "last_checkpoint" = Some (current_task st) ∧
         world st' = world st ∧
         completed_tasks st' = VList [].
Proof.
  intros st.
  apply (X12_run_pointer_not_callable Scenario.task_run Scenario.task_next
           st [] 4).
  - vm_compute. reflexivity.
  - reflexivity.
  - vm_compute. discriminate.
  - vm_compute. reflexivity.
  - lia.
Defined.

Lemma X13_next_raises_witness :
  let task_next := λ (t : Scenario.TaskRef) (d : Scenario.store) (w : bool),
                     (inl (OtherException "NameError") : exn + Scenario.value,
                      d, w) in
  let st := Scenario.fresh (VTask Scenario.T1) false in
  ∃ st', run Scenario.task_run task_next 4 st
         = Some (inl (OtherException "NameError"), st') ∧
         completed_tasks st' = VList ([] ++ [VTask Scenario.T1]) ∧
         current_task st' = VTask Scenario.T1 ∧
         db st' = checkpointed st ∧ world st' = world st.
Proof.
  intros task_next st.
  apply (X13_next_raises Scenario.task_run task_next st Scenario.T1 []
           VNone (checkpointed st) (world st) (OtherException "NameError")
           (checkpointed st) (world st) 4).
  - vm_compute. reflexivity.
  - reflexivity.
  - vm_compute. reflexivity.
  - reflexivity.
  - reflexivity.
  - lia.
Defined.

Lemma X14_rerun_resumes_witness :
  let st0 := Scenario.fresh (VTask Scenario.T1) true in
  ∃ st',
    run Scenario.task_run Scenario.task_next 4 st0
    = Some (inl (ReleaseException "T2"), st') ∧
    let st2 := snd (load_checkpoint
                      (snd (__init__ (Some "3.10.1") (Some "/repo") VNone
                                     (boot (db st') false)))) in
    current_task st2 = VTask Scenario.T2 ∧
    completed_tasks st2 = VList ([] ++ (VTask <$> [Scenario.T1])).
Proof.
  intros st0. destruct scenario_executes_T1 as (Hex & Hcur & Hrun).
  apply (X14_rerun_resumes Scenario.task_run Scenario.task_next
           scenario_run_keeps scenario_next_keeps
           st0 [Scenario.T1] (Scenario.turn st0) Scenario.T2 []
           (ReleaseException "T2") (checkpointed (Scenario.turn st0)) true 4
           (Some "3.10.1") (Some "/repo") false).
  - vm_compute. reflexivity.
  - reflexivity.
  - vm_compute. reflexivity.
  - exact Hex.
  - exact Hcur.
  - exact Hrun.
  - simpl. lia.
Defined.

(** * Further properties of the tasks *)

(** ** The script and the chain of tasks *)

(** The script runs the constructor, and then only moves the pointer. *)
Lemma main_run {World : Type} (st : @state Tasks.TaskRef World) :
  gpg_exportable (open_db (db st)) = true →
  let st1 := snd (__init__ (Some "3.10.1a2")
                    (Some "/home/pablogsal/github/python/master") VNone st) in
  fst (Tasks.main st) = inr () ∧
  db (snd (Tasks.main st)) = db st1 ∧
  completed_tasks (snd (Tasks.main st)) = completed_tasks st1.
Proof.
  intros Hgpg.
  set (release := Some "3.10.1a2").
  set (repo := Some "/home/pablogsal/github/python/master").
  assert (fst (__init__ release repo VNone st) = inr ()) as Hinit.
  { destruct (init_spec release repo VNone st) as (-> & _).
    unfold init_result, configure_result. by rewrite Hgpg. }
  unfold Tasks.main. rewrite bind_run. fold release repo.
  destruct (__init__ release repo VNone st) as [[e|[]] st1]; [done|].
  rewrite bind_run, load_checkpoint_run. simpl.
  by destruct (truthy _).
Qed.

(** X15. The script of [tasks.py] builds its engine on any store whose
    [gpg_key], if there is one, can be exported: its version [3.10.1a2] is
    well formed.  The pointer of the engine is then the value that an
    unfinished store holds as [last_checkpoint], if that value is truthy,
    and [check_git] otherwise: it is never null, and it is a task class
    unless the checkpoint of the store is a truthy value of another kind.
    The store is not finished, so that [run] would start there. *)
Theorem X15_script {World : Type} (st : @state Tasks.TaskRef World) :
  gpg_exportable (db (snd (open_store st))) = true →
  let st' := snd (Tasks.main st) in
  fst (Tasks.main st) = inr () ∧
  current_task st' =
    (if lookup_truthy (db st) "finished" then VTask Tasks.check_git
     else if lookup_truthy (db st) "last_checkpoint"
          then default VNone (db st !! "last_checkpoint")
          else VTask Tasks.check_git) ∧
  truthy (current_task st') = true ∧
  (is_task (current_task st') = false ↔
   lookup_truthy (db st) "finished" = false ∧
   ∃ v, db st !! "last_checkpoint" = Some v ∧
        truthy v = true ∧ is_task v = false) ∧
  lookup_truthy (db st') "finished" = false.
Proof.
  rewrite db_open_store. intros Hgpg st'.
  destruct (main_run st Hgpg) as (Hres & Hdb & _). fold st' in Hdb.
  split; [done|].
  pose proof (main_current_task st Hres) as Hcur. fold st' in Hcur.
  split; [done|]. split; [|split].
  - rewrite Hcur. destruct (lookup_truthy (db st) "finished"); [done|].
    unfold lookup_truthy.
    destruct (db st !! "last_checkpoint") as [v|]; simpl; [|done].
    by destruct (truthy v) eqn:Hv.
  - rewrite Hcur. destruct (lookup_truthy (db st) "finished").
    { split; [done|]. by intros [? _]. }
    unfold lookup_truthy.
    destruct (db st !! "last_checkpoint") as [v|]; simpl.
    + destruct (truthy v) eqn:Hv; simpl.
      * split; [by eauto|]. by intros (_ & v' & [= <-] & _ & ?).
      * split; [done|]. intros (_ & v' & [= <-] & ? & _). congruence.
    + split; [done|]. by intros (_ & v' & ? & _).
  - rewrite Hdb. apply init_unfinished.
Qed.

Lemma X15_script_witness :
  let st := @boot Tasks.TaskRef unit
              (<["last_checkpoint":=VTask Tasks.check_docs]>
                 (<["finished":=VBool false]> ∅)) () in
  let st' := snd (Tasks.main st) in
  fst (Tasks.main st) = inr () ∧
  current_task st' =
    (if lookup_truthy (db st) "finished" then VTask Tasks.check_git
     else if lookup_truthy (db st) "last_checkpoint"
          then default VNone (db st !! "last_checkpoint")
          else VTask Tasks.check_git) ∧
  truthy (current_task st') = true ∧
  (is_task (current_task st') = false ↔
   lookup_truthy (db st) "finished" = false ∧
   ∃ v, db st !! "last_checkpoint" = Some v ∧
        truthy v = true ∧ is_task v = false) ∧
  lookup_truthy (db st') "finished" = false.
Proof.
  intros st. apply (X15_script st). vm_compute. reflexivity.
Defined.

Section Workflow.

Context {World : Type}.
Variable shutil_which : string → World → option string.
Variable external : Tasks.TaskRef → Tasks.store → World
                    → (exn + Tasks.value) * Tasks.store * World.
Implicit Types (st : @state Tasks.TaskRef World) (t : Tasks.TaskRef)
               (l : list Tasks.value).

Abbreviation task_run := (Tasks.task_run shutil_which external).
Abbreviation task_next := (@Tasks.task_next World).

Abbreviation all_succeed := (all_succeed external).

Lemma chain_executes n : ∀ v st l,
  all_succeed →
  current_task st = v → completed_tasks st = VList l →
  ∃ st', executes task_run task_next st (chain n v) st' ∧
         current_task st' = chain_end n v.
Proof.
  induction n as [|n IH]; intros v st l Hok Hcur Hl.
  { exists st. split; [constructor|done]. }
  destruct v as [| | | |t|]; try (exists st; split; [constructor|done]).
  assert (∃ v d2 w2, task_run t (checkpointed st) (world st) = (inr v, d2, w2))
    as (v & d2 & w2 & Hrun).
  { destruct t; simpl; eauto. }
  pose proof (step_return task_run task_next st t l v d2 w2 (Tasks.next t)
                d2 w2 Hcur Hl Hrun eq_refl) as Hstep.
  destruct (IH (Tasks.next t)
               (State d2 (environ st) (Tasks.next t) (VList (l ++ [VTask t]))
                      w2 (history st ++ [half_checkpointed st;
                                         checkpointed st; d2; d2]))
               (l ++ [VTask t]) Hok eq_refl eq_refl)
    as (st' & Hex & Hend).
  exists st'. split; [|done]. simpl. by eapply executes_cons.
Qed.

Lemma chain_ends t :
  chain_end 22 (VTask t) = VNone ∧ NoDup (chain 22 (VTask t)) ∧
  length (chain 22 (VTask t)) ≤ 21.
Proof.
  split; [by destruct t|]. split.
  - apply (bool_decide_unpack _). by destruct t; vm_compute.
  - destruct t; simpl; lia.
Qed.

Lemma run_chain st t l fuel :
  all_succeed →
  current_task st = VTask t →
  completed_tasks st = VList l → forallb is_task l = true →
  21 < fuel →
  ∃ st',
    run task_run task_next fuel st = Some (inr (), st') ∧
    completed_tasks st' = VList (l ++ (VTask <$> chain 22 (VTask t))) ∧
    NoDup (chain 22 (VTask t)) ∧
    db st' !! "finished" = Some (VBool true).
Proof.
  intros Hok Hcur Hl Hshow Hfuel.
  destruct (chain_executes 22 (VTask t) st l Hok Hcur Hl) as (st1 & Hex & Hend).
  destruct (chain_ends t) as (Hnone & Hnodup & Hlen).
  rewrite Hnone in Hend.
  eexists. split; [|split; [|split]].
  - rewrite (run_executes _ _ st _ st1 l fuel Hl Hshow Hex Hend) by lia.
    reflexivity.
  - simpl. apply (executes_completed _ _ _ _ _ _ Hex Hl).
  - done.
  - apply lookup_insert_eq.
Qed.

(** X16. The tasks of [tasks.py] form no cycle: from whatever task the
    engine points at, if no body fails, [run] returns after 21 turns of
    the loop at most, having run the tasks that [next()] names one after
    the other from that task on, none of them twice. *)
Theorem X16_chain_ends st t l fuel :
  all_succeed →
  current_task st = VTask t →
  completed_tasks st = VList l → forallb is_task l = true →
  21 < fuel →
  ∃ st',
    run task_run task_next fuel st = Some (inr (), st') ∧
    completed_tasks st' = VList (l ++ (VTask <$> chain 22 (VTask t))) ∧
    NoDup (chain 22 (VTask t)) ∧
    length (chain 22 (VTask t)) ≤ 21 ∧
    db st' !! "finished" = Some (VBool true).
Proof.
  intros Hok Hcur Hl Hshow Hfuel.
  destruct (run_chain st t l fuel Hok Hcur Hl Hshow Hfuel)
    as (st' & Hrun & Hc & Hnodup & Hfin).
  exists st'. repeat (split; [done|]). split; [|done].
  apply chain_ends.
Qed.

(** X17. The release as the script starts it: on a store that holds no
    checkpoint and no completed tasks, the script points the engine at
    [check_git], and [run] then goes, if no body fails, through the 21
    tasks below in this order and returns;
    [check_cpython_repo_is_clean] is no turn of the loop of its own. *)
Theorem X17_release_workflow st fuel :
  all_succeed →
  gpg_exportable (db (snd (open_store st))) = true →
  lookup_truthy (db (snd (open_store st))) "last_checkpoint" = false →
  db (snd (open_store st)) !! "completed_tasks" = None →
  21 < fuel →
  ∃ st',
    run task_run task_next fuel (snd (Tasks.main st)) = Some (inr (), st') ∧
    completed_tasks st' =
      VList (VTask <$>
        [Tasks.check_git; Tasks.check_make; Tasks.check_blurb;
         Tasks.check_autoconf; Tasks.check_gpg_keys;
         Tasks.check_ssh_connection; Tasks.check_buildbots;
         Tasks.run_blurb_release; Tasks.check_docs;
         Tasks.prepare_pydoc_topics; Tasks.run_autoconf;
         Tasks.check_pyspecific; Tasks.bump_version; Tasks.create_tag;
         Tasks.build_release_artifacts; Tasks.test_release_artifacts;
         Tasks.upload_files_to_server; Tasks.place_files_in_download_folder;
         Tasks.send_email_to_platform_release_managers;
         Tasks.create_release_object_in_db;
         Tasks.wait_util_all_files_are_in_folder]) ∧
    db st' !! "finished" = Some (VBool true).
Proof.
  rewrite db_open_store. intros Hok Hgpg Hcp Hdone Hfuel.
  destruct (main_run st Hgpg) as (Hres & _ & Hc).
  pose proof (main_current_task st Hres) as Hcur.
  assert (current_task (snd (Tasks.main st)) = VTask Tasks.check_git) as Hgit.
  { rewrite Hcur. unfold open_db in Hcp.
    destruct (lookup_truthy (db st) "finished"); [done|].
    unfold lookup_truthy in Hcp. rewrite lookup_insert_ne in Hcp by done.
    unfold lookup_truthy. by rewrite Hcp. }
  destruct (init_spec (Some "3.10.1a2")
              (Some "/home/pablogsal/github/python/master") VNone st)
    as (_ & _ & _ & Hl).
  simpl in Hl, Hc. rewrite Hdone in Hl. rewrite <- Hc in Hl. simpl in Hl.
  destruct (run_chain _ Tasks.check_git [] fuel Hok Hgit Hl eq_refl Hfuel)
    as (st' & Hrun & Hlist & _ & Hfin).
  by exists st'.
Qed.

End Workflow.

Lemma X16_chain_ends_witness :
  let shutil_which := λ (_ : string) (_ : unit), @None string in
  let external := λ (_ : Tasks.TaskRef) (d : Tasks.store) (w : unit),
                    (inr VNone : exn + Tasks.value, d, w) in
  let st := State ∅ ∅ (VTask Tasks.create_tag) (VList []) () [] in
  ∃ st',
    run (Tasks.task_run shutil_which external) Tasks.task_next 22 st
    = Some (inr (), st') ∧
    completed_tasks st'
    = VList ([] ++ (VTask <$> chain 22 (VTask Tasks.create_tag))) ∧
    NoDup (chain 22 (VTask Tasks.create_tag)) ∧
    length (chain 22 (VTask Tasks.create_tag)) ≤ 21 ∧
    db st' !! "finished" = Some (VBool true).
Proof.
  intros shutil_which external st.
  apply (X16_chain_ends shutil_which external st Tasks.create_tag [] 22).
  - intros t d w. by exists VNone, d, w.
  - reflexivity.
  - reflexivity.
  - reflexivity.
  - lia.
Defined.

Lemma X17_release_workflow_witness :
  let shutil_which := λ (_ : string) (_ : unit), @None string in
  let external := λ (_ : Tasks.TaskRef) (d : Tasks.store) (w : unit),
                    (inr VNone : exn + Tasks.value, d, w) in
  ∃ st',
    run (Tasks.task_run shutil_which external) Tasks.task_next 22
        (snd (Tasks.main (boot ∅ ()))) = Some (inr (), st') ∧
    completed_tasks st' =
      VList (VTask <$>
        [Tasks.check_git; Tasks.check_make; Tasks.check_blurb;
         Tasks.check_autoconf; Tasks.check_gpg_keys;
         Tasks.check_ssh_connection; Tasks.check_buildbots;
         Tasks.run_blurb_release; Tasks.check_docs;
         Tasks.prepare_pydoc_topics; Tasks.run_autoconf;
         Tasks.check_pyspecific; Tasks.bump_version; Tasks.create_tag;
         Tasks.build_release_artifacts; Tasks.test_release_artifacts;
         Tasks.upload_files_to_server; Tasks.place_files_in_download_folder;
         Tasks.send_email_to_platform_release_managers;
         Tasks.create_release_object_in_db;
         Tasks.wait_util_all_files_are_in_folder]) ∧
    db st' !! "finished" = Some (VBool true).
Proof.
  intros shutil_which external.
  apply (X17_release_workflow shutil_which external (boot ∅ ()) 22).
  - intros t d w. by exists VNone, d, w.
  - vm_compute. reflexivity.
  - vm_compute. reflexivity.
  - vm_compute. reflexivity.
  - lia.
Defined.

(** ** The operator *)

Section Operator.

Context {TaskRef Outside : Type}.
Implicit Types (w : Terminal.world Outside) (junk rest out : list string).

(** What [ask_question] writes for the answers it refuses. *)
Lemma yes_or_no_false a :
  Terminal.yes_or_no a = false →
  String.eqb a "yes" = false ∧ String.eqb a "no" = false.
Proof. unfold Terminal.yes_or_no. by intros [-> ->]%orb_false_elim. Qed.

Lemma ask_loop_answer junk : ∀ answer0 out answer rest (o : Outside),
  Terminal.yes_or_no answer0 = false →
  Forall (λ a, Terminal.yes_or_no a = false) junk →
  Terminal.yes_or_no answer = true →
  @Terminal.ask_loop TaskRef Outside answer0 (junk ++ answer :: rest) out o =
  (inr (VBool (String.eqb answer "yes")),
   Terminal.World rest
     (out ++ (junk ≫= λ _, ["Enter yes or no: ";
                            Terminal.line "Please enter yes or no."])
          ++ ["Enter yes or no: "]) o).
Proof.
  induction junk as [|a junk IH]; intros answer0 out answer rest o H0 Hjunk Ha.
  - simpl. rewrite H0. unfold Terminal.yes_or_no in Ha.
    destruct (String.eqb answer "yes"); [done|].
    simpl in Ha. by rewrite Ha.
  - apply Forall_cons in Hjunk as [Hno Hjunk].
    destruct (yes_or_no_false a Hno) as [Hy Hn].
    rewrite <- app_comm_cons. simpl Terminal.ask_loop at 1.
    rewrite H0, Hy, Hn. rewrite (IH a _ answer rest o Hno Hjunk Ha).
    rewrite bind_cons. simpl. by rewrite <- !app_assoc.
Qed.

Lemma ask_loop_result inp : ∀ answer0 out (o : Outside),
  Terminal.yes_or_no answer0 = false →
  match @Terminal.ask_loop TaskRef Outside answer0 inp out o with
  | (inr v, w') => (∃ b, v = VBool b) ∧ Terminal.outside w' = o
  | (inl e, w') =>
      e = OtherException "EOFError" ∧ Terminal.stdin w' = [] ∧
      Forall (λ a, Terminal.yes_or_no a = false) inp ∧
      Terminal.outside w' = o
  end.
Proof.
  induction inp as [|a inp IH]; intros answer0 out o H0; simpl; rewrite H0.
  - done.
  - destruct (String.eqb a "yes") eqn:Hy; [by eauto|].
    destruct (String.eqb a "no") eqn:Hn; [by eauto|].
    assert (Terminal.yes_or_no a = false) as Hno.
    { unfold Terminal.yes_or_no. by rewrite Hy, Hn. }
    specialize (IH a (out ++ ["Enter yes or no: "]
                      ++ [Terminal.line "Please enter yes or no."]) o Hno).
    rewrite <- app_assoc.
    destruct (Terminal.ask_loop _ _ _ _) as [[e|v] w']; [|done].
    destruct IH as (? & ? & ? & ?). repeat (split; [done|]).
    split; [|done]. by constructor.
Qed.

Lemma ask_question_answer question w junk answer rest :
  Terminal.stdin w = junk ++ answer :: rest →
  Forall (λ a, Terminal.yes_or_no a = false) junk →
  Terminal.yes_or_no answer = true →
  @Terminal.ask_question TaskRef Outside question w =
  (inr (VBool (String.eqb answer "yes")),
   Terminal.World rest
     (Terminal.stdout w ++ [Terminal.line question]
        ++ (junk ≫= λ _, ["Enter yes or no: ";
                          Terminal.line "Please enter yes or no."])
        ++ ["Enter yes or no: "])
     (Terminal.outside w)).
Proof.
  intros Hin Hjunk Ha. unfold Terminal.ask_question. simpl. rewrite Hin.
  rewrite (ask_loop_answer junk "" _ answer rest _ eq_refl Hjunk Ha).
  by rewrite <- !app_assoc.
Qed.

(** X18. [ask_question] answers with the first line of the input that is
    [yes] or [no], letters for letters: [True] for [yes], [False] for
    [no].  It reads no further than that line, and has asked again once
    for each line it refused. *)
Theorem X18_ask_question question w junk answer rest :
  Terminal.stdin w = junk ++ answer :: rest →
  Forall (λ a, a ≠ "yes" ∧ a ≠ "no") junk →
  answer = "yes" ∨ answer = "no" →
  @Terminal.ask_question TaskRef Outside question w =
  (inr (VBool (bool_decide (answer = "yes"))),
   Terminal.World rest
     (Terminal.stdout w ++ [Terminal.line question]
        ++ (junk ≫= λ _, ["Enter yes or no: ";
                          Terminal.line "Please enter yes or no."])
        ++ ["Enter yes or no: "])
     (Terminal.outside w)).
Proof.
  intros Hin Hjunk Ha.
  rewrite (ask_question_answer question w junk answer rest Hin).
  - by destruct Ha as [-> | ->].
  - eapply Forall_impl; [exact Hjunk|]. intros a [Hy Hn].
    unfold Terminal.yes_or_no.
    apply orb_false_intro; apply String.eqb_neq; done.
  - by destruct Ha as [-> | ->].
Qed.

Lemma ask_question_result question w :
  match @Terminal.ask_question TaskRef Outside question w with
  | (inr v, w') => ∃ b, v = VBool b
  | (inl e, w') =>
      e = OtherException "EOFError" ∧ Terminal.stdin w' = [] ∧
      Forall (λ a, Terminal.yes_or_no a = false) (Terminal.stdin w)
  end.
Proof.
  unfold Terminal.ask_question. simpl.
  pose proof (ask_loop_result (Terminal.stdin w) ""
                (Terminal.stdout w ++ [Terminal.line question])
                (Terminal.outside w) eq_refl) as H.
  destruct (Terminal.ask_loop _ _ _ _) as [[e|v] w']; [|by destruct H].
  by destruct H as (? & ? & H & _).
Qed.

(** X19. [ask_question] never falls out of its loop: it returns a
    boolean, or it raises [EOFError] at the end of an input in which no
    line is [yes] or [no]. *)
Theorem X19_ask_question_results question w :
  match @Terminal.ask_question TaskRef Outside question w with
  | (inr v, w') => ∃ b, v = VBool b
  | (inl e, w') =>
      e = OtherException "EOFError" ∧ Terminal.stdin w' = [] ∧
      Forall (λ a, a ≠ "yes" ∧ a ≠ "no") (Terminal.stdin w)
  end.
Proof.
  pose proof (ask_question_result question w) as H.
  destruct (Terminal.ask_question question w) as [[e|v] w']; [|done].
  destruct H as (? & ? & H). repeat (split; [done|]).
  eapply Forall_impl; [exact H|]. intros a [Hy Hn]%yes_or_no_false.
  by split; apply String.eqb_neq.
Qed.

End Operator.

Lemma X18_ask_question_witness :
  let w := Terminal.World ["y"; "Yes"; "yes"; "no"] [] () in
  @Terminal.ask_question Tasks.TaskRef unit "Continue?" w =
  (inr (VBool (bool_decide ("yes" = "yes"))),
   Terminal.World ["no"]
     (Terminal.stdout w ++ [Terminal.line "Continue?"]
        ++ (["y"; "Yes"] ≫= λ _, ["Enter yes or no: ";
                                  Terminal.line "Please enter yes or no."])
        ++ ["Enter yes or no: "])
     (Terminal.outside w)).
Proof.
  intros w.
  apply (X18_ask_question "Continue?" w ["y"; "Yes"] "yes" ["no"]).
  - reflexivity.
  - repeat constructor; discriminate.
  - by left.
Defined.

(** ** The operator's tasks *)

Section OperatorTasks.

Context {Outside : Type}.
Variable shutil_which : string → Terminal.world Outside → option string.
Variable format_ : Tasks.value → string.
Variable other : Tasks.TaskRef → Tasks.store → Terminal.world Outside
                 → (exn + Tasks.value) * Tasks.store * Terminal.world Outside.
Implicit Types (st : @state Tasks.TaskRef (Terminal.world Outside))
               (w : Terminal.world Outside) (d : Tasks.store)
               (l : list Tasks.value) (junk rest : list string).

Abbreviation operator_run :=
  (Tasks.task_run shutil_which (Terminal.external format_ other)).
Abbreviation operator_next := (@Tasks.task_next (Terminal.world Outside)).

Lemma confirm_result question msg w :
  match @Terminal.confirm Tasks.TaskRef Outside question msg w with
  | (inr v, w') => v = VNone
  | (inl e, w') => e = ReleaseException msg ∨ e = OtherException "EOFError"
  end.
Proof.
  unfold Terminal.confirm.
  pose proof (@ask_question_result Tasks.TaskRef Outside question w) as H.
  destruct (Terminal.ask_question question w) as [[e|v] w'].
  - right. by destruct H.
  - destruct H as [[|] ->]; simpl; [done|by left].
Qed.

Lemma confirm_answer question msg w junk answer rest :
  Terminal.stdin w = junk ++ answer :: rest →
  Forall (λ a, a ≠ "yes" ∧ a ≠ "no") junk →
  answer = "yes" ∨ answer = "no" →
  ∃ w', @Terminal.confirm Tasks.TaskRef Outside question msg w =
        (if bool_decide (answer = "yes") then inr VNone
         else inl (ReleaseException msg), w') ∧
        Terminal.stdin w' = rest ∧ Terminal.outside w' = Terminal.outside w.
Proof.
  intros Hin Hjunk Ha. unfold Terminal.confirm.
  rewrite (ask_question_answer question w junk answer rest Hin).
  - eexists. by destruct Ha as [-> | ->].
  - eapply Forall_impl; [exact Hjunk|]. intros a [Hy Hn].
    unfold Terminal.yes_or_no.
    apply orb_false_intro; apply String.eqb_neq; done.
  - by destruct Ha as [-> | ->].
Qed.

(** X20. When the operator answers [no] to
    [send_email_to_platform_release_managers], [run] raises the task's
    [ReleaseException]; the store is the checkpoint taken before the
    question, which names the task, so that a new run asks again. *)
Theorem X20_operator_declines st l junk rest fuel :
  completed_tasks st = VList l → forallb is_task l = true →
  current_task st = VTask Tasks.send_email_to_platform_release_managers →
  Terminal.stdin (world st) = junk ++ "no" :: rest →
  Forall (λ a, a ≠ "yes" ∧ a ≠ "no") junk →
  0 < fuel →
  ∃ st',
    run operator_run operator_next fuel st
    = Some (inl (ReleaseException "Platform release managers muy be notified"),
            st') ∧
    db st' = checkpointed st ∧
    db st' !! "last_checkpoint"
    = Some (VTask Tasks.send_email_to_platform_release_managers) ∧
    completed_tasks st' = VList l ∧
    Terminal.stdin (world st') = rest.
Proof.
  intros Hl Hshow Hcur Hin Hjunk Hfuel.
  destruct (confirm_answer
              ("Have you notified the platform release managers about the "
               +:+ "availability of artifacts?")
              "Platform release managers muy be notified"
              (world st) junk "no" rest Hin Hjunk) as (w' & Hc & Hrest & _);
    [by right|].
  assert (operator_run Tasks.send_email_to_platform_release_managers
            (checkpointed st) (world st)
          = (inl (ReleaseException "Platform release managers muy be notified"),
             checkpointed st, w')) as Hrun.
  { simpl. unfold Terminal.send_email_to_platform_release_managers_run.
    by rewrite Hc. }
  unfold FiniteStateMachine.run.
  rewrite (show_completed_run _ _ Hl Hshow).
  destruct fuel as [|fuel]; [lia|]. simpl. rewrite Hcur.
  rewrite (step_raise _ _ st _ _ _ _ Hcur Hrun).
  eexists. split; [done|]. simpl. split; [done|].
  split; [|done]. unfold checkpointed. by rewrite lookup_insert_eq, Hcur.
Qed.

(** X21. When the operator answers [yes], the turn of the loop succeeds:
    the task is appended to the completed tasks, the pointer moves to
    [create_release_object_in_db], and the store is the checkpoint taken
    before the question. *)
Theorem X21_operator_accepts st l junk rest :
  completed_tasks st = VList l →
  current_task st = VTask Tasks.send_email_to_platform_release_managers →
  Terminal.stdin (world st) = junk ++ "yes" :: rest →
  Forall (λ a, a ≠ "yes" ∧ a ≠ "no") junk →
  let res := step operator_run operator_next st in
  fst res = inr () ∧
  current_task (snd res) = VTask Tasks.create_release_object_in_db ∧
  completed_tasks (snd res)
  = VList (l ++ [VTask Tasks.send_email_to_platform_release_managers]) ∧
  db (snd res) = checkpointed st ∧
  Terminal.stdin (world (snd res)) = rest.
Proof.
  intros Hl Hcur Hin Hjunk.
  destruct (confirm_answer
              ("Have you notified the platform release managers about the "
               +:+ "availability of artifacts?")
              "Platform release managers muy be notified"
              (world st) junk "yes" rest Hin Hjunk) as (w' & Hc & Hrest & _);
    [by left|].
  assert (operator_run Tasks.send_email_to_platform_release_managers
            (checkpointed st) (world st)
          = (inr VNone, checkpointed st, w')) as Hrun.
  { simpl. unfold Terminal.send_email_to_platform_release_managers_run.
    by rewrite Hc. }
  intros res. unfold res.
  by rewrite (step_return _ _ st _ l _ _ _ _ _ _ Hcur Hl Hrun eq_refl).
Qed.

(** X22. After a construction that succeeded, the store holds the
    release that [create_release_object_in_db] asks about: the task
    raises only when the operator answers [no] or the input ends, and
    writes nothing.  On a store without [release] it raises [KeyError]
    before it asks. *)
Theorem X22_release_object release git_repo fs st w :
  fst (__init__ release git_repo fs st) = inr () →
  let d := db (snd (__init__ release git_repo fs st)) in
  match Terminal.create_release_object_in_db_run format_ d w with
  | (inr v, d', w') => v = VNone ∧ d' = d
  | (inl e, d', w') =>
      d' = d ∧
      (e = ReleaseException "The django release object has not been created"
       ∨ e = OtherException "EOFError")
  end ∧
  ∀ d0, d0 !! "release" = None →
    Terminal.create_release_object_in_db_run format_ d0 w
    = (inl (KeyError "release"), d0,
       Terminal.print ("Go to https://www.python.org/admin/downloads/release/add/"
                       +:+ " and create a new release") w).
Proof.
  intros Hinit d. split.
  - assert ("release" ∈ seeded_keys) as Hk by in_keys.
    pose proof (init_seeds release git_repo fs st "release" Hinit Hk) as Hrel.
    fold d in Hrel. unfold lookup_truthy in Hrel.
    unfold Terminal.create_release_object_in_db_run.
    destruct (d !! "release") as [r|]; [|done].
    match goal with
    | |- context [Terminal.confirm ?q ?m ?w0] =>
        pose proof (confirm_result q m w0) as H;
        destruct (Terminal.confirm q m w0) as [[e|v] w']
    end; done.
  - intros d0 Hd0. unfold Terminal.create_release_object_in_db_run.
    by rewrite Hd0.
Qed.

End OperatorTasks.

Lemma X20_operator_declines_witness :
  let shutil_which := λ (_ : string) (_ : Terminal.world unit), @None string in
  let format_ := λ _ : Tasks.value, "" in
  let other := λ (_ : Tasks.TaskRef) (d : Tasks.store)
                 (w : Terminal.world unit),
                 (inr VNone : exn + Tasks.value, d, w) in
  let st := State (<["finished":=VBool false]> ∅) ∅
                  (VTask Tasks.send_email_to_platform_release_managers)
                  (VList []) (Terminal.World ["maybe"; "no"; "yes"] [] ()) [] in
  ∃ st',
    run (Tasks.task_run shutil_which (Terminal.external format_ other))
        Tasks.task_next 1 st
    = Some (inl (ReleaseException "Platform release managers muy be notified"),
            st') ∧
    db st' = checkpointed st ∧
    db st' !! "last_checkpoint"
    = Some (VTask Tasks.send_email_to_platform_release_managers) ∧
    completed_tasks st' = VList [] ∧
    Terminal.stdin (world st') = ["yes"].
Proof.
  intros shutil_which format_ other st.
  apply (X20_operator_declines shutil_which format_ other st [] ["maybe"]
           ["yes"] 1).
  - reflexivity.
  - reflexivity.
  - reflexivity.
  - reflexivity.
  - repeat constructor; discriminate.
  - lia.
Defined.

Lemma X21_operator_accepts_witness :
  let shutil_which := λ (_ : string) (_ : Terminal.world unit), @None string in
  let format_ := λ _ : Tasks.value, "" in
  let other := λ (_ : Tasks.TaskRef) (d : Tasks.store)
                 (w : Terminal.world unit),
                 (inr VNone : exn + Tasks.value, d, w) in
  let st := State (<["finished":=VBool false]> ∅) ∅
                  (VTask Tasks.send_email_to_platform_release_managers)
                  (VList []) (Terminal.World ["yes"; "no"] [] ()) [] in
  let res := step (Tasks.task_run shutil_which
                     (Terminal.external format_ other)) Tasks.task_next st in
  fst res = inr () ∧
  current_task (snd res) = VTask Tasks.create_release_object_in_db ∧
  completed_tasks (snd res)
  = VList ([] ++ [VTask Tasks.send_email_to_platform_release_managers]) ∧
  db (snd res) = checkpointed st ∧
  Terminal.stdin (world (snd res)) = ["no"].
Proof.
  intros shutil_which format_ other st.
  apply (X21_operator_accepts shutil_which format_ other st [] [] ["no"]).
  - reflexivity.
  - reflexivity.
  - reflexivity.
  - constructor.
Defined.

Lemma X22_release_object_witness :
  let format_ := λ _ : Tasks.value, "" in
  let w := Terminal.World ["no"] [] () in
  let d := db (snd (__init__ (Some "3.10.1") (Some "/repo") VNone
                             (@boot Tasks.TaskRef (Terminal.world unit) ∅ w))) in
  match Terminal.create_release_object_in_db_run format_ d w with
  | (inr v, d', w') => v = VNone ∧ d' = d
  | (inl e, d', w') =>
      d' = d ∧
      (e = ReleaseException "The django release object has not been created"
       ∨ e = OtherException "EOFError")
  end ∧
  ∀ d0 : Tasks.store, d0 !! "release" = None →
    Terminal.create_release_object_in_db_run format_ d0 w
    = (inl (KeyError "release"), d0,
       Terminal.print ("Go to https://www.python.org/admin/downloads/release/add/"
                       +:+ " and create a new release") w).
Proof.
  intros format_ w.
  apply (X22_release_object format_ (Some "3.10.1") (Some "/repo") VNone
           (@boot Tasks.TaskRef (Terminal.world unit) ∅ w) w).
  vm_compute. reflexivity.
Defined.

(** ** The GPG key *)

Section GpgKey.

Context {TaskRef Outside : Type}.
Variable int_ : string → string + Z.
Implicit Types (keys : list Terminal.gpg_key) (d : gmap string (value TaskRef))
               (env : gmap string string) (w : Terminal.world Outside).

Abbreviation check_gpg_keys_run :=
  (@Terminal.check_gpg_keys_run TaskRef Outside int_).

Lemma getitem_elem_of {A : Type} (l : list A) i x :
  Terminal.getitem l i = Some x → x ∈ l.
Proof.
  unfold Terminal.getitem. destruct (0 <=? i)%Z; [apply list_elem_of_lookup_2|].
  destruct (_ <=? _)%Z; [apply list_elem_of_lookup_2|done].
Qed.

Lemma print_keys_stdin keys : ∀ n w,
  Terminal.stdin (Terminal.print_keys n keys w) = Terminal.stdin w.
Proof.
  induction keys as [|key keys IH]; intros n w; [done|].
  simpl. by rewrite IH.
Qed.

Lemma check_gpg_keys_spec keys d env w :
  match check_gpg_keys_run keys d env w with
  | (inr v, d', env', w') =>
      v = VNone ∧
      ∃ key, key ∈ keys ∧ has_nul (Terminal.keyid key) = false ∧
             d' = <["gpg_key":=VStr (Terminal.keyid key)]> d ∧
             env' = <["GPG_KEY_FOR_self.db['release']":=Terminal.keyid key]> env
  | (inl e, d', env', w') =>
      d' = d ∧ env' = env ∧
      e ≠ ReleaseException "Invalid GPG key selected"
  end.
Proof.
  unfold Terminal.check_gpg_keys_run.
  destruct keys as [|key0 keys0]; [done|].
  set (keys := key0 :: keys0).
  destruct (Terminal.input _ _) as [[e|answer] w2] eqn:Hin.
  { unfold Terminal.input in Hin.
    destruct (Terminal.stdin _); by simplify_eq. }
  destruct (int_ answer) as [msg|i]; [done|].
  destruct (Terminal.getitem keys i) as [key|] eqn:Hkey; [|done].
  apply getitem_elem_of in Hkey.
  destruct (has_nul (Terminal.keyid key)) eqn:Hnul; [done|].
  rewrite bool_decide_eq_true_2 by (by apply list_elem_of_fmap_2).
  split; [done|]. by exists key.
Qed.

(** X23. [check_gpg_keys] stores a key of the key ring or nothing: when it
    returns, [gpg_key] is the id of one of the keys listed and the
    environment variable it has set is the one named
    [GPG_KEY_FOR_self.db['release']], letter for letter, not
    [GPG_KEY_FOR_RELEASE]; when it raises, store and environment are as
    they were, and the error is never [Invalid GPG key selected]. *)
Theorem X23_check_gpg_keys keys d env w :
  match check_gpg_keys_run keys d env w with
  | (inr v, d', env', w') =>
      ∃ key, key ∈ keys ∧
             d' = <["gpg_key":=VStr (Terminal.keyid key)]> d ∧
             env' !! "GPG_KEY_FOR_self.db['release']"
             = Some (Terminal.keyid key) ∧
             env' !! "GPG_KEY_FOR_RELEASE" = env !! "GPG_KEY_FOR_RELEASE"
  | (inl e, d', env', w') =>
      d' = d ∧ env' = env ∧
      e ≠ ReleaseException "Invalid GPG key selected"
  end.
Proof.
  pose proof (check_gpg_keys_spec keys d env w) as H.
  destruct (check_gpg_keys_run keys d env w) as [[[[e|v] d'] env'] w']; [done|].
  destruct H as (_ & key & Hin & _ & -> & ->). exists key.
  repeat (split; [done|]). split; [apply lookup_insert_eq|].
  by rewrite lookup_insert_ne.
Qed.

(** X24. The key that the operator selects reaches [GPG_KEY_FOR_RELEASE]
    with the next engine: a construction on the store that
    [check_gpg_keys] left, in a new process, exports it. *)
Theorem X24_selected_key_exported {World : Type} keys d env w v d' env' w'
    release git_repo fs (W : World) :
  check_gpg_keys_run keys d env w = (inr v, d', env', w') →
  Forall (λ key, Terminal.keyid key ≠ "") keys →
  lookup_truthy d "finished" = false →
  ∃ key, key ∈ keys ∧
    d' !! "gpg_key" = Some (VStr (Terminal.keyid key)) ∧
    environ (snd (__init__ release git_repo fs (boot d' W)))
      !! "GPG_KEY_FOR_RELEASE" = Some (Terminal.keyid key).
Proof.
  intros Hrun Hkeys Hfin.
  pose proof (check_gpg_keys_spec keys d env w) as H. rewrite Hrun in H.
  destruct H as (_ & key & Hin & Hnul & -> & _). exists key.
  split; [done|]. split; [apply lookup_insert_eq|].
  rewrite init_environ. simpl db.
  rewrite open_db_unfinished
    by (unfold lookup_truthy in *; by rewrite lookup_insert_ne).
  rewrite lookup_insert_ne by done. rewrite lookup_insert_eq.
  rewrite Forall_forall in Hkeys. specialize (Hkeys key Hin).
  destruct (Terminal.keyid key) as [|a k]; [done|]. rewrite Hnul.
  apply lookup_insert_eq.
Qed.

(** X25. The index the operator types is used as Python indexes a list,
    with no check of its range: from [-len(keys)] to [len(keys) - 1] it
    selects a key, a negative index counting from the end, and the id of
    that key is stored (unless it holds NUL, which [os.environ] refuses
    with [ValueError], nothing being stored); any other integer raises
    [IndexError] and nothing is stored. *)
Theorem X25_key_index keys d env w answer rest i :
  keys ≠ [] →
  Terminal.stdin w = answer :: rest → int_ answer = inr i →
  let n := Z.of_nat (length keys) in
  let res := check_gpg_keys_run keys d env w in
  if decide (- n ≤ i < n)%Z
  then ∃ key, keys !! Z.to_nat (i mod n) = Some key ∧
              if has_nul (Terminal.keyid key)
              then res.1.1.1 = inl (ValueError "embedded null byte") ∧
                   res.1.1.2 = d
              else res.1.1.1 = inr VNone ∧
                   res.1.1.2 = <["gpg_key":=VStr (Terminal.keyid key)]> d
  else res.1.1.1 = inl (OtherException "IndexError") ∧ res.1.1.2 = d.
Proof.
  intros Hne Hin Hint n res. unfold res, Terminal.check_gpg_keys_run.
  destruct keys as [|key0 keys0]; [done|].
  set (keys := key0 :: keys0) in *.
  unfold Terminal.input. rewrite print_keys_stdin, Hin, Hint.
  unfold Terminal.getitem. fold n.
  assert (0 < n)%Z as Hn by (unfold n; simpl; lia).
  destruct (decide (- n ≤ i < n)%Z) as [Hi|Hi].
  - assert (∃ key, keys !! Z.to_nat (i mod n) = Some key) as [key Hkey].
    { apply lookup_lt_is_Some_2.
      pose proof (Z.mod_pos_bound i n Hn). unfold n in *. lia. }
    exists key. split; [done|].
    assert ((if (0 <=? i)%Z then keys !! Z.to_nat i
             else if (- n <=? i)%Z then keys !! Z.to_nat (n + i) else None)
            = Some key) as ->.
    { rewrite <- Hkey. destruct (Z.leb_spec 0 i).
      - by rewrite Z.mod_small by lia.
      - destruct (Z.leb_spec (- n) i); [|lia].
        f_equal. f_equal.
        rewrite <- (Z.mod_add i 1 n) by lia.
        rewrite Z.mod_small by lia. lia. }
    destruct (has_nul (Terminal.keyid key)); [done|].
    rewrite bool_decide_eq_true_2; [done|].
    apply list_elem_of_fmap_2. by eapply list_elem_of_lookup_2.
  - assert ((if (0 <=? i)%Z then keys !! Z.to_nat i
             else if (- n <=? i)%Z then keys !! Z.to_nat (n + i) else None)
            = None) as ->; [|done].
    destruct (Z.leb_spec 0 i).
    + apply lookup_ge_None_2. unfold n in *. lia.
    + destruct (Z.leb_spec (- n) i); [lia|done].
Qed.

End GpgKey.

Lemma X24_selected_key_exported_witness :
  let int_ := λ _ : string, (inr 0%Z : string + Z) in
  let keys := [Terminal.GpgKey "4AEE18F83AFDEB23" "['Release Manager']"] in
  let d : Tasks.store := <["finished":=VBool false]> ∅ in
  let res := @Terminal.check_gpg_keys_run Tasks.TaskRef unit int_ keys d ∅
               (Terminal.World ["0"] [] ()) in
  ∃ key, key ∈ keys ∧
    res.1.1.2 !! "gpg_key" = Some (VStr (Terminal.keyid key)) ∧
    environ (snd (__init__ (Some "3.10.1") (Some "/repo") VNone
                           (boot res.1.1.2 ())))
      !! "GPG_KEY_FOR_RELEASE" = Some (Terminal.keyid key).
Proof.
  intros int_ keys d res.
  apply (X24_selected_key_exported int_ keys d ∅
           (Terminal.World ["0"] [] ()) VNone res.1.1.2 res.1.2 res.2
           (Some "3.10.1") (Some "/repo") VNone ()).
  - reflexivity.
  - repeat constructor; discriminate.
  - reflexivity.
Defined.

Lemma X25_key_index_witness :
  let int_ := λ _ : string, (inr (-1)%Z : string + Z) in
  let keys := [Terminal.GpgKey "4AEE18F83AFDEB23" "['Release Manager']";
               Terminal.GpgKey "0D96DF4D4110E5C4" "['Somebody Else']"] in
  let d : Tasks.store := <["finished":=VBool false]> ∅ in
  let n := Z.of_nat (length keys) in
  let res := @Terminal.check_gpg_keys_run Tasks.TaskRef unit int_ keys d ∅
               (Terminal.World ["-1"] [] ()) in
  if decide (- n ≤ -1 < n)%Z
  then ∃ key, keys !! Z.to_nat (-1 mod n) = Some key ∧
              if has_nul (Terminal.keyid key)
              then res.1.1.1 = inl (ValueError "embedded null byte") ∧
                   res.1.1.2 = d
              else res.1.1.1 = inr VNone ∧
                   res.1.1.2 = <["gpg_key":=VStr (Terminal.keyid key)]> d
  else res.1.1.1 = inl (OtherException "IndexError") ∧ res.1.1.2 = d.
Proof.
  intros int_ keys d.
  apply (X25_key_index int_ keys d ∅ (Terminal.World ["-1"] [] ()) "-1" []
           (-1)%Z).
  - discriminate.
  - reflexivity.
  - reflexivity.
Defined.

(** ** Waiting for the files *)

Lemma ends_with_spec suffix s :
  Terminal.ends_with suffix s = true ↔ ∃ p, s = p +:+ suffix.
Proof.
  split.
  - induction s as [|a s IH]; cbn [Terminal.ends_with];
      intros [Heq|H]%orb_true_iff.
    + apply String.eqb_eq in Heq as <-. by exists "".
    + done.
    + apply String.eqb_eq in Heq as <-. by exists "".
    + destruct (IH H) as [p ->]. exists (String a p). by rewrite append_cons.
  - intros [p ->]. induction p as [|a p IH].
    + rewrite append_empty_l.
      destruct suffix; cbn [Terminal.ends_with]; by rewrite String.eqb_refl.
    + rewrite append_cons. cbn [Terminal.ends_with]. rewrite IH.
      apply orb_true_r.
Qed.

Section Waiting.

Context {TaskRef : Type}.
Implicit Types (pre : list (list string)) (post : list (exn + list string)).

(** The pauses of the loop over the listings [pre]: one for each listing
    that has no [.pkg] file. *)
Lemma wait_loop_pending pre : ∀ n post,
  Forall (λ all_files, Terminal.all_files_there all_files = false) pre →
  @Terminal.wait_loop TaskRef ((inr <$> pre) ++ post) n =
  Terminal.wait_loop post
    (n + length (List.filter
                   (λ all_files,
                      negb (existsb (Terminal.ends_with ".pkg") all_files))
                   pre)).
Proof.
  induction pre as [|all_files pre IH]; intros n post Hpre.
  { simpl. by rewrite Nat.add_0_r. }
  apply Forall_cons in Hpre as [Hno Hpre].
  unfold Terminal.all_files_there in Hno.
  rewrite fmap_cons, <- app_comm_cons. simpl Terminal.wait_loop at 1.
  rewrite Hno, (IH _ post Hpre). simpl List.filter.
  destruct (existsb (Terminal.ends_with ".pkg") all_files); simpl;
    f_equal; lia.
Qed.

(** X26. The loop of [wait_util_all_files_are_in_folder] ends at the first
    listing that holds a [.tgz], an [.exe] and a [.pkg] file, or at the
    first error of [listdir], whichever comes first; until then it goes
    on, pausing for a second after a listing that has no [.pkg] file and
    not at all after one that has. *)
Theorem X26_wait_loop pre (stop : exn + list string) post n :
  Forall (λ all_files, Terminal.all_files_there all_files = false) pre →
  match stop with
  | inr all_files => Terminal.all_files_there all_files = true
  | inl _ => True
  end →
  @Terminal.wait_loop TaskRef ((inr <$> pre) ++ stop :: post) n =
  Some (match stop with inl e => inl e | inr _ => inr VNone end,
        Terminal.Polling post
          (n + length (List.filter
                         (λ all_files,
                            negb (existsb (Terminal.ends_with ".pkg")
                                    all_files))
                         pre))) ∧
  @Terminal.wait_loop TaskRef (inr <$> pre) n = None.
Proof.
  intros Hpre Hstop. split.
  - rewrite (wait_loop_pending pre n _ Hpre).
    destruct stop as [e|all_files]; [done|]. simpl.
    unfold Terminal.all_files_there in Hstop. rewrite Hstop.
    apply andb_true_iff in Hstop as [_ ->]. done.
  - rewrite <- (app_nil_r (inr <$> pre)).
    by rewrite (wait_loop_pending pre n _ Hpre).
Qed.

End Waiting.

Lemma X26_wait_loop_witness :
  let pre := [["Python-3.10.1.tgz"];
              ["Python-3.10.1.tgz"; "python-3.10.1-macos11.pkg"]] in
  let stop : exn + list string :=
    inr ["Python-3.10.1.tgz"; "python-3.10.1-macos11.pkg";
         "python-3.10.1-amd64.exe"] in
  @Terminal.wait_loop Tasks.TaskRef ((inr <$> pre) ++ stop :: []) 0 =
  Some (match stop with inl e => inl e | inr _ => inr VNone end,
        Terminal.Polling []
          (0 + length (List.filter
                         (λ all_files,
                            negb (existsb (Terminal.ends_with ".pkg")
                                    all_files))
                         pre))) ∧
  @Terminal.wait_loop Tasks.TaskRef (inr <$> pre) 0 = None.
Proof.
  intros pre stop.
  apply (@X26_wait_loop Tasks.TaskRef pre stop [] 0).
  - repeat constructor.
  - reflexivity.
Defined.

(** ** The branch that [check_pyspecific] expects *)

Section Pyspecific.

Context {TaskRef World : Type}.
Variable format_ : value TaskRef → string.
Implicit Types (st : @state TaskRef World) (fs : value TaskRef)
               (lines : list string).

(** X27. The branch seeded by the constructor decides [check_pyspecific]:
    on the store of a construction that has seeded [release_branch], for
    whatever version, the task succeeds exactly when the line of
    [pyspecific.py] it stops at is the [SOURCE_URI] of [master]; it raises
    [SOURCE_URI is incorrect] otherwise, for an empty file
    [UnboundLocalError], and it writes nothing. *)
Theorem X27_pyspecific_branch s git_repo fs st p lines :
  fst (__init__ (Some s) git_repo fs st) = inr () →
  lookup_truthy (db (snd (open_store st))) "release_branch" = false →
  let d := db (snd (__init__ (Some s) git_repo fs st)) in
  d !! "git_repo" = Some (VPath p) →
  let res := check_pyspecific_run format_ (inr lines) d in
  (fst res = inr VNone ↔
   ∃ line, line_read lines None = Some line ∧
           strip line
           = "SOURCE_URI = 'https://github.com/python/cpython/tree/master/%s'")
  ∧ (∀ e, fst res = inl e →
          e = ReleaseException "SOURCE_URI is incorrect" ∨
          lines = [] ∧ e = OtherException "UnboundLocalError")
  ∧ snd res = d.
Proof.
  intros Hinit Hbranch d Hrepo res.
  pose proof (release_branch_master s git_repo fs st Hinit Hbranch) as Hb.
  fold d in Hb. unfold res, check_pyspecific_run. rewrite Hrepo, Hb.
  change (Terminal.format format_ (VStr "master")) with "master".
  change ("SOURCE_URI = 'https://github.com/python/cpython/tree/"
          +:+ "master" +:+ "/%s'")
    with "SOURCE_URI = 'https://github.com/python/cpython/tree/master/%s'".
  destruct (line_read lines None) as [line|] eqn:Hline.
  - destruct (String.eqb_spec
                "SOURCE_URI = 'https://github.com/python/cpython/tree/master/%s'"
                (strip line)) as [Heq|Hne]; simpl.
    + split; [|by split]. split; [|done]. intros _. by exists line.
    + split; [|split; [|done]].
      * split; [done|]. intros (line' & [= <-] & Heq). by rewrite Heq in Hne.
      * intros e [= <-]. by left.
  - simpl. split; [|split; [|done]].
    + split; [done|]. by intros (line' & ? & _).
    + intros e [= <-]. right. split; [|done].
      destruct lines as [|l lines]; [done|]. simpl in Hline.
      destruct (contains _ l); [done|].
      clear -Hline. exfalso. revert l Hline.
      induction lines as [|l' lines IH]; intros l Hline; [done|].
      simpl in Hline. destruct (contains _ l'); [done|]. by eapply IH.
Qed.

End Pyspecific.

Lemma X27_pyspecific_branch_witness :
  let format_ := λ _ : Tasks.value, "" in
  let lines :=
    [Terminal.line "# Support for the CPython documentation";
     Terminal.line
       "SOURCE_URI = 'https://github.com/python/cpython/tree/3.10/%s'"] in
  let d := db (snd (__init__ (Some "3.10.1") (Some "/repo") VNone
                             (@boot Tasks.TaskRef unit ∅ ()))) in
  let res := check_pyspecific_run format_ (inr lines) d in
  (fst res = inr VNone ↔
   ∃ line, line_read lines None = Some line ∧
           strip line
           = "SOURCE_URI = 'https://github.com/python/cpython/tree/master/%s'")
  ∧ (∀ e, fst res = inl e →
          e = ReleaseException "SOURCE_URI is incorrect" ∨
          lines = [] ∧ e = OtherException "UnboundLocalError")
  ∧ snd res = d.
Proof.
  intros format_ lines.
  apply (X27_pyspecific_branch format_ "3.10.1" (Some "/repo") VNone
           (@boot Tasks.TaskRef unit ∅ ()) "/repo" lines).
  - vm_compute. reflexivity.
  - vm_compute. reflexivity.
  - vm_compute. reflexivity.
Defined.
